(** * lib-ws2812b: the WS2812b<PIN, LEN, ORDER> driver class

    A shallow embedding of [lib-ws2812b.h] and the properties of its pixel
    buffer, its HSV conversion and its bit-banged transmission.

    Target and integer model.  The header drives [PORTB] / [DDRB] with
    [_BV], [cli], [sei] and cycle-counted [nop]s for a 16 MHz core: it is
    AVR code.  There [byte] and [uint8_t] are 8 bits, [int], [unsigned] and
    [uint16_t] are 16 bits and [uint32_t] is 32 bits.  Integers are
    represented in [Z]; every conversion to a fixed-width unsigned type is
    written out with [uint8], [uint16] or [uint32].  A product computed in
    [int] and then converted to [uint16_t] is written [uint16 (x * y)]:
    reduction modulo 2^16 gives the same residue whether or not the
    intermediate [int] wrapped. *)

From Stdlib Require Import ZArith List Lia Bool.
From stdpp Require Import base list.
Import ListNotations.
Local Open Scope Z_scope.

(** ** Fixed-width integers and C operators *)

Definition uint8 (x : Z) : Z := x mod 2 ^ 8.
Definition uint16 (x : Z) : Z := x mod 2 ^ 16.
Definition uint32 (x : Z) : Z := x mod 2 ^ 32.

(** Value ranges of the parameter types [byte] and [unsigned]. *)
Definition is_byte (x : Z) : Prop := 0 <= x < 256.
Definition is_unsigned (x : Z) : Prop := 0 <= x < 65536.

(** C's logical negation [!x], an [int] that is 1 or 0. *)
Definition lnot (x : Z) : Z := if x =? 0 then 1 else 0.

(** Conversion of an integer to [bool], as for the argument of [sendBit]. *)
Definition to_bool (x : Z) : bool := negb (x =? 0).

(** avr-libc's [#define _BV(bit) (1 << (bit))].  The template parameter
    [PIN] is a bit of port B, 0 to 7, where the 16-bit shift does not
    overflow; the properties below assume that range. *)
Definition _BV (bit : Z) : Z := Z.shiftl 1 bit.

(** ** Colour triplets *)

(** [struct rgb_t { byte r; byte g; byte b; }] *)
Record rgb_t : Type := mk_rgb { r : Z; g : Z; b : Z }.

#[global] Instance rgb_t_inhabited : Inhabited rgb_t := populate (mk_rgb 0 0 0).

(** [enum order_t { RGB = 0, GRB = 1 }] *)
Definition RGB : Z := 0.
Definition GRB : Z := 1.

(** ** The pixel buffer and the colour conversion *)

(** The initialiser of [sextant] in [setHSV]:
    [(((h % (6*256)) >> 8) > 5) ? 5 : (h % (6*256)) >> 8], stored in a
    [uint8_t].  [sextant_clamped] is the condition of the conditional. *)
Definition sextant_clamped (h : Z) : bool := Z.shiftr (h mod (6 * 256)) 8 >? 5.

Definition sextant (h : Z) : Z :=
  uint8 (if sextant_clamped h then 5 else Z.shiftr (h mod (6 * 256)) 8).

Section PixelBuffer.

(** Template parameter [LEN]; the member [rgb_t data[LEN]] is a list. *)
Variable LEN : Z.

(** [void setRGB(const byte pos, const rgb_t& rgb)] *)
Definition setRGB (pos : Z) (rgb : rgb_t) (data : list rgb_t) : list rgb_t :=
  if pos <? LEN then <[Z.to_nat pos := rgb]> data else data.

(** [void setRGB(const byte pos, const byte r, const byte g, const byte b)] *)
Definition setRGB3 (pos red green blue : Z) (data : list rgb_t) : list rgb_t :=
  setRGB pos (mk_rgb red green blue) data.

(** [void setHSV(const byte pos, const unsigned h, const byte s, const byte v)].
    [d >> 16] is a [uint32_t]; passing it for a [byte] parameter of
    [setRGB] converts it, which is the [uint8] at the six calls. *)
Definition setHSV (pos h s v : Z) (data : list rgb_t) : list rgb_t :=
  if v =? 0 then setRGB3 pos 0 0 0 data
  else if s =? 0 then setRGB3 pos v v v data
  else
    let sextant := sextant h in
    let ww := uint16 (v * (255 - s)) in
    let ww := uint16 (ww + 1) in
    let ww := uint16 (ww + Z.shiftr ww 8) in
    let c := uint8 (Z.shiftr ww 8) in
    let h_fraction := uint8 (Z.land h 0xff) in
    if Z.land sextant 1 =? 0 then
      let d := uint32 (v * uint16 (Z.shiftl 255 8 - uint16 (s * (256 - h_fraction)))) in
      let d := uint32 (d + Z.shiftr d 8) in
      let d := uint32 (d + v) in
      match sextant with
      | 0 => setRGB3 pos v (uint8 (Z.shiftr d 16)) c data
      | 2 => setRGB3 pos c v (uint8 (Z.shiftr d 16)) data
      | 4 => setRGB3 pos (uint8 (Z.shiftr d 16)) c v data
      | _ => data
      end
    else
      let d := uint32 (v * uint16 (Z.shiftl 255 8 - uint16 (s * h_fraction))) in
      let d := uint32 (d + Z.shiftr d 8) in
      let d := uint32 (d + v) in
      match sextant with
      | 1 => setRGB3 pos (uint8 (Z.shiftr d 16)) v c data
      | 3 => setRGB3 pos c (uint8 (Z.shiftr d 16)) v data
      | 5 => setRGB3 pos v c (uint8 (Z.shiftr d 16)) data
      | _ => data
      end.

End PixelBuffer.


(** ** The microcontroller: registers and the signal on the wire *)

(** What the transmission does to the outside world, in program order. *)
Inductive event : Type :=
| Port (v : Z)      (* a write of [v] to the PORTB register *)
| Nop (n : nat)     (* [n] single-cycle [nop] instructions *)
| Delay (us : Z)    (* [delayMicroseconds(us)] *)
| Cli               (* interrupts disabled *)
| Sei.              (* interrupts enabled *)

(** The registers the driver touches; [SREG_I] is the global interrupt flag. *)
Record regs : Type := mk_regs { PORTB : Z; DDRB : Z; SREG_I : bool }.

(** A computation reads and updates the registers and emits events. *)
Definition M (A : Type) : Type := regs -> A * regs * list event.

Definition ret {A : Type} (a : A) : M A := fun s => (a, s, []).

Definition bind {A B : Type} (m : M A) (k : A -> M B) : M B :=
  fun s =>
    let '(a, s1, w1) := m s in
    let '(y, s2, w2) := k a s1 in
    (y, s2, w1 ++ w2).

Declare Scope mcu_scope.
Delimit Scope mcu_scope with mcu.
Notation "x <- m ;; k" := (bind m (fun x => k))
  (at level 100, m at next level, right associativity) : mcu_scope.
Notation "m ;; k" := (bind m (fun _ => k))
  (at level 100, right associativity) : mcu_scope.
Local Open Scope mcu_scope.

(** Registers after, and events emitted by, a computation. *)
Definition after {A : Type} (m : M A) (s : regs) : regs := snd (fst (m s)).
Definition wire {A : Type} (m : M A) (s : regs) : list event := snd (m s).

Definition read_PORTB : M Z := fun s => (PORTB s, s, []).

(** PORTB is an 8-bit register: the stored value is the low byte. *)
Definition write_PORTB (v : Z) : M unit :=
  fun s => (tt, mk_regs (uint8 v) (DDRB s) (SREG_I s), [Port (uint8 v)]).

Definition read_DDRB : M Z := fun s => (DDRB s, s, []).

Definition write_DDRB (v : Z) : M unit :=
  fun s => (tt, mk_regs (PORTB s) (uint8 v) (SREG_I s), []).

Definition nop (n : nat) : M unit := fun s => (tt, s, [Nop n]).

Definition delayMicroseconds (us : Z) : M unit := fun s => (tt, s, [Delay us]).

Definition cli : M unit :=
  fun s => (tt, mk_regs (PORTB s) (DDRB s) false, [Cli]).

Definition sei : M unit :=
  fun s => (tt, mk_regs (PORTB s) (DDRB s) true, [Sei]).

(** [for (unsigned i = 0; i < n; ++i) body(i)] with a loop-invariant bound. *)
Fixpoint for_each (idx : list nat) (body : nat -> M unit) : M unit :=
  match idx with
  | [] => ret tt
  | i :: rest => body i ;; for_each rest body
  end.

(** ** The protocol encoder *)

Section Encoder.

(** Template parameters. *)
Variables PIN LEN ORDER : Z.

(** [void setup()] *)
Definition setup : M unit :=
  d <- read_DDRB ;; write_DDRB (Z.lor d (_BV PIN)).

(** [inline void sendBit(const bool b) const] *)
Definition sendBit (bit : bool) : M unit :=
  p <- read_PORTB ;; write_PORTB (Z.lor p (_BV PIN)) ;;
  nop 2 ;;
  p <- read_PORTB ;; write_PORTB (Z.land p (if bit then 0x0FF else lnot (_BV PIN))) ;;
  nop 5 ;;
  p <- read_PORTB ;; write_PORTB (Z.land p (lnot (_BV PIN))).

(** [void sendRGB(const rgb_t& rgb) const] *)
Definition sendRGB (rgb : rgb_t) : M unit :=
  cli ;;
  sendBit (to_bool (Z.land 0x80 (r rgb))) ;;
  sendBit (to_bool (Z.land 0x40 (r rgb))) ;;
  sendBit (to_bool (Z.land 0x20 (r rgb))) ;;
  sendBit (to_bool (Z.land 0x10 (r rgb))) ;;
  sendBit (to_bool (Z.land 0x08 (r rgb))) ;;
  sendBit (to_bool (Z.land 0x04 (r rgb))) ;;
  sendBit (to_bool (Z.land 0x02 (r rgb))) ;;
  sendBit (to_bool (Z.land 0x01 (r rgb))) ;;
  sei ;;
  cli ;;
  sendBit (to_bool (Z.land 0x80 (g rgb))) ;;
  sendBit (to_bool (Z.land 0x40 (g rgb))) ;;
  sendBit (to_bool (Z.land 0x20 (g rgb))) ;;
  sendBit (to_bool (Z.land 0x10 (g rgb))) ;;
  sendBit (to_bool (Z.land 0x08 (g rgb))) ;;
  sendBit (to_bool (Z.land 0x04 (g rgb))) ;;
  sendBit (to_bool (Z.land 0x02 (g rgb))) ;;
  sendBit (to_bool (Z.land 0x01 (g rgb))) ;;
  sei ;;
  cli ;;
  sendBit (to_bool (Z.land 0x80 (b rgb))) ;;
  sendBit (to_bool (Z.land 0x40 (b rgb))) ;;
  sendBit (to_bool (Z.land 0x20 (b rgb))) ;;
  sendBit (to_bool (Z.land 0x10 (b rgb))) ;;
  sendBit (to_bool (Z.land 0x08 (b rgb))) ;;
  sendBit (to_bool (Z.land 0x04 (b rgb))) ;;
  sendBit (to_bool (Z.land 0x02 (b rgb))) ;;
  sendBit (to_bool (Z.land 0x01 (b rgb))) ;;
  sei.

(** [void sendGRB(const rgb_t& rgb) const] *)
Definition sendGRB (rgb : rgb_t) : M unit :=
  cli ;;
  sendBit (to_bool (Z.land 0x80 (g rgb))) ;;
  sendBit (to_bool (Z.land 0x40 (g rgb))) ;;
  sendBit (to_bool (Z.land 0x20 (g rgb))) ;;
  sendBit (to_bool (Z.land 0x10 (g rgb))) ;;
  sendBit (to_bool (Z.land 0x08 (g rgb))) ;;
  sendBit (to_bool (Z.land 0x04 (g rgb))) ;;
  sendBit (to_bool (Z.land 0x02 (g rgb))) ;;
  sendBit (to_bool (Z.land 0x01 (g rgb))) ;;
  sei ;;
  cli ;;
  sendBit (to_bool (Z.land 0x80 (r rgb))) ;;
  sendBit (to_bool (Z.land 0x40 (r rgb))) ;;
  sendBit (to_bool (Z.land 0x20 (r rgb))) ;;
  sendBit (to_bool (Z.land 0x10 (r rgb))) ;;
  sendBit (to_bool (Z.land 0x08 (r rgb))) ;;
  sendBit (to_bool (Z.land 0x04 (r rgb))) ;;
  sendBit (to_bool (Z.land 0x02 (r rgb))) ;;
  sendBit (to_bool (Z.land 0x01 (r rgb))) ;;
  sei ;;
  cli ;;
  sendBit (to_bool (Z.land 0x80 (b rgb))) ;;
  sendBit (to_bool (Z.land 0x40 (b rgb))) ;;
  sendBit (to_bool (Z.land 0x20 (b rgb))) ;;
  sendBit (to_bool (Z.land 0x10 (b rgb))) ;;
  sendBit (to_bool (Z.land 0x08 (b rgb))) ;;
  sendBit (to_bool (Z.land 0x04 (b rgb))) ;;
  sendBit (to_bool (Z.land 0x02 (b rgb))) ;;
  sendBit (to_bool (Z.land 0x01 (b rgb))) ;;
  sei.

(** [void flush() const]; [data[i]] is read with the total lookup, which
    is the array element whenever [i < LEN = length data]. *)
Definition flush (data : list rgb_t) : M unit :=
  write_PORTB 0 ;;
  delayMicroseconds 50 ;;
  for_each (seq 0 (Z.to_nat LEN)) (fun i =>
    if ORDER =? RGB then sendRGB (data !!! i)
    else if ORDER =? GRB then sendGRB (data !!! i)
    else ret tt).

End Encoder.

(** ** The signal on the data line, as the protocol describes it *)

(** A bit is a pulse: the line is raised, held, and dropped early (short
    pulse, bit 0) or late (long pulse, bit 1). *)
Inductive pulse : Type := Long | Short.

Definition pulse_of_bit (bit : bool) : pulse := if bit then Long else Short.

(** The eight bits of a byte, most significant first. *)
Definition bits_msb (x : Z) : list bool :=
  [Z.testbit x 7; Z.testbit x 6; Z.testbit x 5; Z.testbit x 4;
   Z.testbit x 3; Z.testbit x 2; Z.testbit x 1; Z.testbit x 0].

Definition byte_pulses (x : Z) : list pulse := map pulse_of_bit (bits_msb x).

Section Signal.

Variable PIN : Z.

(** Port writes and waits of one pulse, starting from an all-low port. *)
Definition pulse_events (p : pulse) : list event :=
  match p with
  | Long => [Port (uint8 (_BV PIN)); Nop 2; Port (uint8 (_BV PIN)); Nop 5; Port 0]
  | Short => [Port (uint8 (_BV PIN)); Nop 2; Port 0; Nop 5; Port 0]
  end.

(** One byte on the wire: its eight pulses with interrupts off. *)
Definition burst (x : Z) : list event :=
  [Cli] ++ flat_map pulse_events (byte_pulses x) ++ [Sei].

(** Level of pin [PIN] during each wait, with the number of cycles waited;
    [lvl] is the level before the first port write. *)
Fixpoint waveform (lvl : bool) (es : list event) : list (bool * nat) :=
  match es with
  | [] => []
  | Port v :: rest => waveform (Z.testbit v PIN) rest
  | Nop n :: rest => (lvl, n) :: waveform lvl rest
  | _ :: rest => waveform lvl rest
  end.

End Signal.

(** Start of frame: the port is forced low and held for the reset interval. *)
Definition reset_events : list event := [Port 0; Delay 50].

(** The three bytes of a pixel on the wire, in the configured channel order:
    red, green, blue under [RGB]; green, red, blue under [GRB]. *)
Definition pixel_events (PIN ORDER : Z) (p : rgb_t) : list event :=
  if ORDER =? RGB then burst PIN (r p) ++ burst PIN (g p) ++ burst PIN (b p)
  else if ORDER =? GRB then burst PIN (g p) ++ burst PIN (r p) ++ burst PIN (b p)
  else [].

(** A pixel with its red and green channels exchanged. *)
Definition swap_rg (p : rgb_t) : rgb_t := mk_rgb (g p) (r p) (b p).

(** Two triplets agree within one least-significant bit in every channel. *)
Definition within_1 (p q : rgb_t) : Prop :=
  Z.abs (r p - r q) <= 1 /\ Z.abs (g p - g q) <= 1 /\ Z.abs (b p - b q) <= 1.

(** ** Observations on a signal *)

(** Total number of [nop] cycles waited in a signal. *)
Fixpoint nop_cycles (es : list event) : nat :=
  match es with
  | [] => 0%nat
  | Nop n :: rest => (n + nop_cycles rest)%nat
  | _ :: rest => nop_cycles rest
  end.

(** Every cycle-counted wait happens with interrupts disabled; [off] tells
    whether they are disabled before the first event. *)
Fixpoint waits_in_critical (off : bool) (es : list event) : bool :=
  match es with
  | [] => true
  | Cli :: rest => waits_in_critical true rest
  | Sei :: rest => waits_in_critical false rest
  | Nop _ :: rest => off && waits_in_critical off rest
  | _ :: rest => waits_in_critical off rest
  end.

(** The [nop] cycles spent in each completed critical section ([Cli] to
    the next [Sei]), in order; [cur] is the count of the section that is
    open before the first event, if any. *)
Fixpoint critical_sections (cur : option nat) (es : list event) : list nat :=
  match es with
  | [] => []
  | Cli :: rest => critical_sections (Some 0%nat) rest
  | Sei :: rest =>
      match cur with
      | Some n => n :: critical_sections None rest
      | None => critical_sections None rest
      end
  | Nop n :: rest =>
      critical_sections (match cur with Some k => Some (k + n)%nat | None => None end) rest
  | _ :: rest => critical_sections cur rest
  end.

(** A receiver on the data line tells the bits apart by the width of the
    pulse: of the two waits of a pulse, the line is still high during the
    second one exactly for a 1.  [wave_bits] reads the bits off a
    [waveform]. *)
Fixpoint wave_bits (w : list (bool * nat)) : list bool :=
  match w with
  | _ :: (lvl, _) :: rest => lvl :: wave_bits rest
  | _ => []
  end.

(** The number spelled by a list of bits, most significant first. *)
Definition bits_value (bs : list bool) : Z :=
  fold_left (fun acc bit => 2 * acc + Z.b2z bit) bs 0.

(** [n] pixels of three bytes each, assembled from a bit stream. *)
Fixpoint bits_pixels (n : nat) (bs : list bool) : list rgb_t :=
  match n with
  | O => []
  | S n' =>
      mk_rgb (bits_value (take 8 bs))
             (bits_value (take 8 (drop 8 bs)))
             (bits_value (take 8 (drop 16 bs)))
      :: bits_pixels n' (drop 24 bs)
  end.

(** What a chain of [n] receivers on pin [PIN] latches from a signal, the
    three bytes of each in the order received. *)
Definition received (PIN : Z) (n : nat) (es : list event) : list rgb_t :=
  bits_pixels n (wave_bits (waveform PIN false es)).

(** A triplet whose three channels are values of type [byte]. *)
Definition byte_pixel (p : rgb_t) : Prop :=
  is_byte (r p) /\ is_byte (g p) /\ is_byte (b p).

(** ** The triplet computed by [setHSV], named for the proofs *)

(** The floor channel [c] of [setHSV] as a function of [s] and [v]. *)
Definition hsv_floor (s v : Z) : Z :=
  let ww := uint16 (v * (255 - s)) in
  let ww := uint16 (ww + 1) in
  let ww := uint16 (ww + Z.shiftr ww 8) in
  uint8 (Z.shiftr ww 8).

(** The slope channel [byte(d >> 16)] of [setHSV]; [k] is the factor of
    [s] in the subtracted term, [256 - h_fraction] in the even sextants and
    [h_fraction] in the odd ones. *)
Definition hsv_slope (s v k : Z) : Z :=
  let d := uint32 (v * uint16 (Z.shiftl 255 8 - uint16 (s * k))) in
  let d := uint32 (d + Z.shiftr d 8) in
  let d := uint32 (d + v) in
  uint8 (Z.shiftr d 16).

(** The argument of the one call of [setRGB] that [setHSV] makes
    (lemma [setHSV_triplet] below). *)
Definition hsv_triplet (h s v : Z) : rgb_t :=
  if v =? 0 then mk_rgb 0 0 0
  else if s =? 0 then mk_rgb v v v
  else
    let c := hsv_floor s v in
    let h_fraction := uint8 (Z.land h 0xff) in
    match sextant h with
    | 0 => mk_rgb v (hsv_slope s v (256 - h_fraction)) c
    | 1 => mk_rgb (hsv_slope s v h_fraction) v c
    | 2 => mk_rgb c v (hsv_slope s v (256 - h_fraction))
    | 3 => mk_rgb c (hsv_slope s v h_fraction) v
    | 4 => mk_rgb (hsv_slope s v (256 - h_fraction)) c v
    | _ => mk_rgb v c (hsv_slope s v h_fraction)
    end.

(** ** Exhaustive checks over pairs of bytes *)

Definition all_bytes : list Z := map Z.of_nat (seq 0 256).

(** [P s v] holds for every pair of byte values. *)
Definition byte_table (P : Z -> Z -> bool) : bool :=
  forallb (fun s => forallb (fun v => P s v) all_bytes) all_bytes.

(** The bytes of a buffer in the order they go on the wire. *)
Definition wire_bytes (ORDER : Z) (ps : list rgb_t) : list Z :=
  flat_map (fun p => if ORDER =? RGB then [r p; g p; b p] else [g p; r p; b p]) ps.

(** An event that raises no line of the port: any event but a port write
    of a non-zero value. *)
Definition port_low (e : event) : Prop :=
  match e with Port v => v = 0 | _ => True end.

(** * Properties *)

(** ** Integer lemmas *)

Lemma uint8_idem x : uint8 (uint8 x) = uint8 x.
Proof. unfold uint8. apply Z.mod_mod. lia. Qed.

Lemma uint8_small x : is_byte x -> uint8 x = x.
Proof. unfold is_byte, uint8. intros H. apply Z.mod_small. lia. Qed.

Lemma uint8_range x : is_byte (uint8 x).
Proof. unfold is_byte, uint8. pose proof (Z.mod_pos_bound x (2 ^ 8)). lia. Qed.

Lemma land_255 x : Z.land x 0x0FF = uint8 x.
Proof. unfold uint8. change 0x0FF with (Z.ones 8). apply Z.land_ones. lia. Qed.

Lemma _BV_nonzero bit : 0 <= bit -> _BV bit <> 0.
Proof.
  intros H. unfold _BV. rewrite Z.shiftl_1_l.
  pose proof (Z.pow_pos_nonneg 2 bit). lia.
Qed.

Lemma lnot__BV bit : 0 <= bit -> lnot (_BV bit) = 0.
Proof.
  intros H. unfold lnot.
  destruct (Z.eqb_spec (_BV bit) 0) as [E | _]; [| reflexivity].
  now apply _BV_nonzero in E.
Qed.

Lemma _BV_port_bit bit : 0 <= bit < 8 -> uint8 (_BV bit) = 2 ^ bit.
Proof.
  intros H. unfold _BV. rewrite Z.shiftl_1_l. apply uint8_small.
  unfold is_byte. split; [apply Z.pow_nonneg; lia |].
  change 256 with (2 ^ 8). apply Z.pow_lt_mono_r; lia.
Qed.

(** The mask tests of [sendRGB] and [sendGRB] read single bits. *)
Lemma to_bool_mask x k : 0 <= k -> to_bool (Z.land (2 ^ k) x) = Z.testbit x k.
Proof.
  intros Hk. unfold to_bool.
  destruct (Z.testbit x k) eqn:E.
  - destruct (Z.eqb_spec (Z.land (2 ^ k) x) 0) as [H0 | _]; [| reflexivity].
    assert (Hb : Z.testbit (Z.land (2 ^ k) x) k = true).
    { rewrite Z.land_spec, Z.pow2_bits_true, E by lia. reflexivity. }
    rewrite H0, Z.bits_0 in Hb. discriminate.
  - replace (Z.land (2 ^ k) x) with 0; [reflexivity |].
    symmetry. apply Z.bits_inj'. intros n Hn.
    rewrite Z.land_spec, Z.bits_0, Z.pow2_bits_eqb by lia.
    destruct (Z.eqb_spec k n) as [-> | _]; [now rewrite E | reflexivity].
Qed.

(** ** Running computations *)

Lemma bind_run {A B : Type} (m : M A) (k : A -> M B) s a s1 w1 y s2 w2 :
  m s = (a, s1, w1) -> k a s1 = (y, s2, w2) -> bind m k s = (y, s2, w1 ++ w2).
Proof. intros Hm Hk. unfold bind. now rewrite Hm, Hk. Qed.

Lemma cli_run s : cli s = (tt, mk_regs (PORTB s) (DDRB s) false, [Cli]).
Proof. reflexivity. Qed.

Lemma sei_run s : sei s = (tt, mk_regs (PORTB s) (DDRB s) true, [Sei]).
Proof. reflexivity. Qed.

Section EncoderRuns.

Variable PIN : Z.
Hypothesis PIN_nonneg : 0 <= PIN.

(** What one call of [sendBit] does from any register state. *)
Lemma sendBit_run bit s :
  sendBit PIN bit s =
    (tt, mk_regs 0 (DDRB s) (SREG_I s),
     let high := uint8 (Z.lor (PORTB s) (_BV PIN)) in
     [Port high; Nop 2; Port (if bit then high else 0); Nop 5; Port 0]).
Proof.
  unfold sendBit, bind, read_PORTB, write_PORTB, nop; simpl.
  rewrite (lnot__BV PIN PIN_nonneg), !Z.land_0_r.
  destruct bit.
  - rewrite land_255, !uint8_idem. reflexivity.
  - rewrite Z.land_0_r. reflexivity.
Qed.

(** From an all-low port a call of [sendBit] is exactly one pulse, and
    the registers are afterwards as they were. *)
Lemma sendBit_pulse bit s :
  PORTB s = 0 ->
  sendBit PIN bit s = (tt, s, pulse_events PIN (pulse_of_bit bit)).
Proof.
  intros H0. rewrite sendBit_run, H0, Z.lor_0_l.
  destruct s as [p d i]. cbn [PORTB] in H0. subst p. now destruct bit.
Qed.

(** The eight mask tests of a byte, as bit reads. *)
Lemma mask_0x80 x : to_bool (Z.land 0x80 x) = Z.testbit x 7.
Proof. exact (to_bool_mask x 7 ltac:(lia)). Qed.
Lemma mask_0x40 x : to_bool (Z.land 0x40 x) = Z.testbit x 6.
Proof. exact (to_bool_mask x 6 ltac:(lia)). Qed.
Lemma mask_0x20 x : to_bool (Z.land 0x20 x) = Z.testbit x 5.
Proof. exact (to_bool_mask x 5 ltac:(lia)). Qed.
Lemma mask_0x10 x : to_bool (Z.land 0x10 x) = Z.testbit x 4.
Proof. exact (to_bool_mask x 4 ltac:(lia)). Qed.
Lemma mask_0x08 x : to_bool (Z.land 0x08 x) = Z.testbit x 3.
Proof. exact (to_bool_mask x 3 ltac:(lia)). Qed.
Lemma mask_0x04 x : to_bool (Z.land 0x04 x) = Z.testbit x 2.
Proof. exact (to_bool_mask x 2 ltac:(lia)). Qed.
Lemma mask_0x02 x : to_bool (Z.land 0x02 x) = Z.testbit x 1.
Proof. exact (to_bool_mask x 1 ltac:(lia)). Qed.
Lemma mask_0x01 x : to_bool (Z.land 0x01 x) = Z.testbit x 0.
Proof. exact (to_bool_mask x 0 ltac:(lia)). Qed.

(** One statement of the straight-line code of [sendRGB] / [sendGRB]. *)
Ltac run_statement H0 :=
  eapply bind_run;
  [ first [ apply cli_run | apply sei_run
          | apply sendBit_pulse; exact H0 ]
  | cbv beta; cbn [PORTB DDRB SREG_I] ].

(** From an all-low port [sendRGB] emits the three bytes of the pixel, red
    first, and returns with the port low and interrupts enabled. *)
Lemma sendRGB_run rgb s :
  PORTB s = 0 ->
  sendRGB PIN rgb s =
    (tt, mk_regs 0 (DDRB s) true,
     burst PIN (r rgb) ++ burst PIN (g rgb) ++ burst PIN (b rgb)).
Proof.
  intros H0. unfold sendRGB.
  eapply eq_trans.
  { do 29 (run_statement H0). apply sei_run. }
  rewrite !mask_0x80, !mask_0x40, !mask_0x20, !mask_0x10,
    !mask_0x08, !mask_0x04, !mask_0x02, !mask_0x01.
  unfold burst, byte_pulses, bits_msb. cbn [map flat_map].
  rewrite <- !app_assoc. cbn [app PORTB]. rewrite H0. reflexivity.
Qed.

(** [sendGRB] is [sendRGB] on the pixel with red and green exchanged. *)
Lemma sendGRB_swap rgb : sendGRB PIN rgb = sendRGB PIN (swap_rg rgb).
Proof. unfold sendGRB, sendRGB, swap_rg. cbn [r g b]. reflexivity. Qed.

Lemma sendGRB_run rgb s :
  PORTB s = 0 ->
  sendGRB PIN rgb s =
    (tt, mk_regs 0 (DDRB s) true,
     burst PIN (g rgb) ++ burst PIN (r rgb) ++ burst PIN (b rgb)).
Proof.
  intros H0. rewrite sendGRB_swap, (sendRGB_run (swap_rg rgb) s H0).
  reflexivity.
Qed.

End EncoderRuns.

(** ** Loops over the buffer *)

Lemma for_each_ext (body body' : nat -> M unit) idx s :
  (forall i s', body i s' = body' i s') ->
  for_each idx body s = for_each idx body' s.
Proof.
  intros Hext. revert s. induction idx as [| i idx IH]; intros s; [reflexivity |].
  cbn [for_each]. unfold bind. rewrite Hext.
  destruct (body' i s) as [[[] s1] w1]. now rewrite IH.
Qed.

(** A body that, from a low port, emits [W i] and leaves the port low. *)
Lemma for_each_run (body : nat -> M unit) (W : nat -> list event) idx s :
  (forall i s', PORTB s' = 0 ->
     exists s'', body i s' = (tt, s'', W i) /\ PORTB s'' = 0) ->
  PORTB s = 0 ->
  exists s', for_each idx body s = (tt, s', flat_map W idx) /\ PORTB s' = 0.
Proof.
  intros Hbody. revert s. induction idx as [| i idx IH]; intros s H0.
  - exists s. split; [reflexivity | assumption].
  - destruct (Hbody i s H0) as (s1 & Hrun & H1).
    destruct (IH s1 H1) as (s2 & Hrest & H2).
    exists s2. split; [| assumption].
    cbn [for_each flat_map]. exact (bind_run _ _ _ _ _ _ _ _ _ Hrun Hrest).
Qed.

(** Reading the array at every index of its range gives the array. *)
Lemma lookup_total_seq_from (data : list rgb_t) (front : list rgb_t) :
  map (fun i => (front ++ data) !!! i) (seq (length front) (length data)) = data.
Proof.
  revert front. induction data as [| p data IH]; intros front; [reflexivity |].
  cbn [length seq map]. f_equal.
  - rewrite lookup_total_app_r by lia.
    replace (length front - length front)%nat with 0%nat by lia. reflexivity.
  - specialize (IH (front ++ [p])).
    rewrite <- app_assoc, length_app in IH. cbn [app length] in IH.
    replace (length front + 1)%nat with (S (length front)) in IH by lia.
    exact IH.
Qed.

Lemma lookup_total_seq (data : list rgb_t) :
  map (fun i => data !!! i) (seq 0 (length data)) = data.
Proof. exact (lookup_total_seq_from data []). Qed.

Lemma flat_map_lookup_total (F : rgb_t -> list event) (data : list rgb_t) :
  flat_map (fun i => F (data !!! i)) (seq 0 (length data)) = flat_map F data.
Proof.
  rewrite !flat_map_concat_map.
  rewrite <- (map_map (fun i => data !!! i) F), lookup_total_seq. reflexivity.
Qed.

Lemma lookup_total_swap_rg (data : list rgb_t) (i : nat) :
  (map swap_rg data) !!! i = swap_rg (data !!! i).
Proof.
  revert i. induction data as [| p data IH]; intros [| i]; try reflexivity.
  apply IH.
Qed.

(** ** Transmission of the whole buffer *)

Section FlushRuns.

Variables PIN LEN : Z.
Hypothesis PIN_nonneg : 0 <= PIN.

(** One iteration of the loop of [flush], from a low port. *)
Lemma flush_body_run ORDER (data : list rgb_t) i s :
  PORTB s = 0 ->
  exists s',
    (if ORDER =? RGB then sendRGB PIN (data !!! i)
     else if ORDER =? GRB then sendGRB PIN (data !!! i)
     else ret tt) s = (tt, s', pixel_events PIN ORDER (data !!! i))
    /\ PORTB s' = 0.
Proof.
  intros H0. unfold pixel_events.
  destruct (ORDER =? RGB); [| destruct (ORDER =? GRB)].
  - eexists. split; [now apply sendRGB_run | reflexivity].
  - eexists. split; [now apply sendGRB_run | reflexivity].
  - exists s. split; [reflexivity | assumption].
Qed.

(** [flush] from any register state: the reset, then every pixel of the
    index range in order; the port is left low. *)
Lemma flush_run ORDER (data : list rgb_t) s :
  exists s',
    flush PIN LEN ORDER data s =
      (tt, s',
       reset_events ++
       flat_map (fun i => pixel_events PIN ORDER (data !!! i))
                (seq 0 (Z.to_nat LEN)))
    /\ PORTB s' = 0.
Proof.
  unfold flush.
  destruct (for_each_run
              (fun i => if ORDER =? RGB then sendRGB PIN (data !!! i)
                        else if ORDER =? GRB then sendGRB PIN (data !!! i)
                        else ret tt)
              (fun i => pixel_events PIN ORDER (data !!! i))
              (seq 0 (Z.to_nat LEN))
              (mk_regs 0 (DDRB s) (SREG_I s)))
    as (s' & Hloop & Hlow).
  - intros i s1 H1. now apply flush_body_run.
  - reflexivity.
  - exists s'. split; [| assumption].
    eapply eq_trans.
    { eapply bind_run; [reflexivity |]. cbv beta.
      eapply bind_run; [reflexivity |]. cbv beta.
      exact Hloop. }
    reflexivity.
Qed.

(** With the array invariant [length data = LEN] the signal is a function
    of the buffer contents alone. *)
Lemma flush_wire ORDER (data : list rgb_t) s :
  length data = Z.to_nat LEN ->
  wire (flush PIN LEN ORDER data) s =
    reset_events ++ flat_map (pixel_events PIN ORDER) data.
Proof.
  intros Hlen. destruct (flush_run ORDER data s) as (s' & Hrun & _).
  unfold wire. rewrite Hrun. cbn [snd].
  rewrite <- Hlen, flat_map_lookup_total. reflexivity.
Qed.

(** Transmitting under GRB is transmitting under RGB the buffer with red
    and green exchanged in every pixel. *)
Lemma flush_GRB_swap (data : list rgb_t) s :
  flush PIN LEN GRB data s = flush PIN LEN RGB (map swap_rg data) s.
Proof.
  unfold flush, bind.
  change (GRB =? RGB) with false. change (GRB =? GRB) with true.
  change (RGB =? RGB) with true. cbv iota.
  destruct (write_PORTB 0 s) as [[[] s1] w1].
  destruct (delayMicroseconds 50 s1) as [[[] s2] w2].
  rewrite (for_each_ext (fun i => sendGRB PIN (data !!! i))
                        (fun i => sendRGB PIN (map swap_rg data !!! i))).
  - reflexivity.
  - intros i s'. now rewrite lookup_total_swap_rg, sendGRB_swap.
Qed.

End FlushRuns.

(** ** Claims on the protocol encoder *)

(** C1. For a buffer of length 3 whose every slot holds (255,0,0), [flush]
    under RGB order emits, after the reset, for each of the three pixels in
    index order the bytes 0xFF, 0x00, 0x00; each byte is its eight bits most
    significant first, 0xFF as eight long pulses and 0x00 as eight short
    pulses; in a long pulse pin [PIN] is high through both waits (2 + 5
    cycles), in a short pulse through the first wait only. *)
Theorem flush_red_strip (PIN : Z) (s : regs) :
  0 <= PIN < 8 ->
  let red := mk_rgb 255 0 0 in
  let pixel := burst PIN 0xFF ++ burst PIN 0x00 ++ burst PIN 0x00 in
  wire (flush PIN 3 RGB [red; red; red]) s =
    reset_events ++ pixel ++ pixel ++ pixel
  /\ byte_pulses 0xFF = [Long; Long; Long; Long; Long; Long; Long; Long]
  /\ byte_pulses 0x00 = [Short; Short; Short; Short; Short; Short; Short; Short]
  /\ (forall lvl, waveform PIN lvl (pulse_events PIN Long) = [(true, 2%nat); (true, 5%nat)])
  /\ (forall lvl, waveform PIN lvl (pulse_events PIN Short) = [(true, 2%nat); (false, 5%nat)]).
Proof.
  intros HPIN red pixel.
  assert (Hhigh : Z.testbit (uint8 (_BV PIN)) PIN = true).
  { rewrite _BV_port_bit by lia. apply Z.pow2_bits_true. lia. }
  split; [| split; [reflexivity | split; [reflexivity | split]]].
  - rewrite flush_wire by (lia || reflexivity).
    cbn [flat_map]. unfold pixel_events. cbn [Z.eqb RGB r g b red].
    rewrite app_nil_r, <- !app_assoc. reflexivity.
  - intros lvl. cbn [waveform pulse_events]. now rewrite Hhigh.
  - intros lvl. cbn [waveform pulse_events]. now rewrite Hhigh, Z.bits_0.
Qed.

Lemma flush_red_strip_witness :
  let red := mk_rgb 255 0 0 in
  let pixel := burst 1 0xFF ++ burst 1 0x00 ++ burst 1 0x00 in
  wire (flush 1 3 RGB [red; red; red]) (mk_regs 0xAA 0 true) =
    reset_events ++ pixel ++ pixel ++ pixel
  /\ byte_pulses 0xFF = [Long; Long; Long; Long; Long; Long; Long; Long]
  /\ byte_pulses 0x00 = [Short; Short; Short; Short; Short; Short; Short; Short]
  /\ (forall lvl, waveform 1 lvl (pulse_events 1 Long) = [(true, 2%nat); (true, 5%nat)])
  /\ (forall lvl, waveform 1 lvl (pulse_events 1 Short) = [(true, 2%nat); (false, 5%nat)]).
Proof. apply (flush_red_strip 1 (mk_regs 0xAA 0 true)). lia. Defined.

(** C2. For every buffer contents the signal under GRB order and the signal
    under RGB order are the same reset followed, pixel by pixel in index
    order, by three byte bursts built by the same [burst] (most significant
    bit first); the only difference is that RGB sends red then green and GRB
    sends green then red, the blue byte being third in both.  Hence
    transmitting under GRB is transmitting under RGB the buffer with red and
    green exchanged in every pixel. *)
Theorem flush_GRB_vs_RGB (PIN LEN : Z) (data : list rgb_t) (s : regs) :
  0 <= PIN < 8 ->
  length data = Z.to_nat LEN ->
  wire (flush PIN LEN RGB data) s =
    reset_events ++
    flat_map (fun p => burst PIN (r p) ++ burst PIN (g p) ++ burst PIN (b p)) data
  /\ wire (flush PIN LEN GRB data) s =
    reset_events ++
    flat_map (fun p => burst PIN (g p) ++ burst PIN (r p) ++ burst PIN (b p)) data
  /\ flush PIN LEN GRB data s = flush PIN LEN RGB (map swap_rg data) s.
Proof.
  intros HPIN Hlen. split; [| split].
  - rewrite flush_wire by (lia || assumption). reflexivity.
  - rewrite flush_wire by (lia || assumption). reflexivity.
  - apply flush_GRB_swap.
Qed.

Lemma flush_GRB_vs_RGB_witness :
  let data := [mk_rgb 1 2 3; mk_rgb 0x80 0x7F 0xFF] in
  let s := mk_regs 0xFF 0x02 true in
  wire (flush 1 2 RGB data) s =
    reset_events ++
    flat_map (fun p => burst 1 (r p) ++ burst 1 (g p) ++ burst 1 (b p)) data
  /\ wire (flush 1 2 GRB data) s =
    reset_events ++
    flat_map (fun p => burst 1 (g p) ++ burst 1 (r p) ++ burst 1 (b p)) data
  /\ flush 1 2 GRB data s = flush 1 2 RGB (map swap_rg data) s.
Proof.
  apply (flush_GRB_vs_RGB 1 2 [mk_rgb 1 2 3; mk_rgb 0x80 0x7F 0xFF]
           (mk_regs 0xFF 0x02 true)); [lia | reflexivity].
Defined.

(** C9. For every bit value, when [sendBit] returns the whole PORTB register
    is 0, whatever it held before: the mask [!_BV(PIN)] is the logical
    negation of a non-zero value, that is 0, so the final [PORTB &= ...]
    clears every line of the port and not only pin [PIN].  [flush]
    therefore leaves PORTB at 0 as well, for every length, order and
    buffer. *)
Theorem sendBit_zeroes_PORTB (PIN : Z) (bit : bool) (s : regs) :
  0 <= PIN < 8 ->
  lnot (_BV PIN) = 0
  /\ PORTB (after (sendBit PIN bit) s) = 0
  /\ (exists high mid, wire (sendBit PIN bit) s =
                         [Port high; Nop 2; Port mid; Nop 5; Port 0])
  /\ (forall LEN ORDER data, PORTB (after (flush PIN LEN ORDER data) s) = 0).
Proof.
  intros HPIN.
  assert (H0 : 0 <= PIN) by lia.
  split; [now apply lnot__BV | split; [| split]].
  - unfold after. now rewrite sendBit_run.
  - unfold wire. rewrite sendBit_run by assumption. cbn [snd]. eauto.
  - intros LEN ORDER data.
    destruct (flush_run PIN LEN H0 ORDER data s) as (s' & Hrun & Hlow).
    unfold after. now rewrite Hrun.
Qed.

Lemma sendBit_zeroes_PORTB_witness :
  let s := mk_regs 0xFF 0xFF true in
  lnot (_BV 1) = 0
  /\ PORTB (after (sendBit 1 true) s) = 0
  /\ (exists high mid, wire (sendBit 1 true) s =
                         [Port high; Nop 2; Port mid; Nop 5; Port 0])
  /\ (forall LEN ORDER data, PORTB (after (flush 1 LEN ORDER data) s) = 0).
Proof. apply (sendBit_zeroes_PORTB 1 true (mk_regs 0xFF 0xFF true)). lia. Defined.

(** ** Claims on the pixel buffer *)

(** C3. For every position in [0, LEN-1] and every r, g, b, after
    [setRGB(pos, r, g, b)] the slot at [pos] holds exactly (r, g, b). *)
Theorem setRGB3_read (LEN pos red green blue : Z) (data : list rgb_t) :
  0 <= pos < LEN ->
  length data = Z.to_nat LEN ->
  setRGB3 LEN pos red green blue data !! Z.to_nat pos = Some (mk_rgb red green blue).
Proof.
  intros Hpos Hlen. unfold setRGB3, setRGB.
  destruct (Z.ltb_spec pos LEN) as [_ | Hge]; [| lia].
  apply list_lookup_insert_eq. lia.
Qed.

Lemma setRGB3_read_witness :
  setRGB3 3 2 10 20 30 [mk_rgb 0 0 0; mk_rgb 1 1 1; mk_rgb 2 2 2] !! Z.to_nat 2
  = Some (mk_rgb 10 20 30).
Proof.
  apply (setRGB3_read 3 2 10 20 30 [mk_rgb 0 0 0; mk_rgb 1 1 1; mk_rgb 2 2 2]);
    [lia | reflexivity].
Defined.

(** The parameter [pos] is a [byte]: an [int] argument is converted before
    the call, so position 256 arrives as 0 and that slot is written. *)
Example setRGB_converted_argument :
  setRGB 3 (uint8 256) (mk_rgb 9 9 9) [mk_rgb 0 0 0; mk_rgb 1 1 1; mk_rgb 2 2 2]
  = [mk_rgb 9 9 9; mk_rgb 1 1 1; mk_rgb 2 2 2].
Proof. reflexivity. Qed.

(** C4. For every [byte] position outside [0, LEN-1], [setRGB] (in both
    overloads) returns normally and leaves the whole buffer as it was. *)
Theorem setRGB_out_of_range (LEN pos : Z) (rgb : rgb_t) (red green blue : Z)
    (data : list rgb_t) :
  is_byte pos ->
  ~ (0 <= pos < LEN) ->
  setRGB LEN pos rgb data = data
  /\ setRGB3 LEN pos red green blue data = data.
Proof.
  unfold is_byte. intros Hbyte Hout. unfold setRGB3, setRGB.
  destruct (Z.ltb_spec pos LEN) as [Hlt | _]; [lia | split; reflexivity].
Qed.

Lemma setRGB_out_of_range_witness :
  let data := [mk_rgb 0 0 0; mk_rgb 1 1 1; mk_rgb 2 2 2] in
  setRGB 3 3 (mk_rgb 9 9 9) data = data
  /\ setRGB3 3 3 9 9 9 data = data.
Proof.
  apply (setRGB_out_of_range 3 3 (mk_rgb 9 9 9) 9 9 9
           [mk_rgb 0 0 0; mk_rgb 1 1 1; mk_rgb 2 2 2]);
    unfold is_byte; lia.
Defined.

(** ** Claims on the colour conversion *)

(** The hue reduced modulo 1536 always falls in one of the six sextants. *)
Lemma hue_shift_range (h : Z) :
  Z.shiftr (h mod (6 * 256)) 8 = (h mod 1536) / 256
  /\ 0 <= Z.shiftr (h mod (6 * 256)) 8 <= 5.
Proof.
  change (6 * 256) with 1536.
  rewrite Z.shiftr_div_pow2 by lia. change (2 ^ 8) with 256.
  pose proof (Z.mod_pos_bound h 1536 ltac:(lia)) as Hm.
  split; [reflexivity |]. split.
  - apply Z.div_pos; lia.
  - assert ((h mod 1536) / 256 < 6) by (apply Z.div_lt_upper_bound; lia). lia.
Qed.

Lemma sextant_clamped_false (h : Z) : sextant_clamped h = false.
Proof.
  unfold sextant_clamped. destruct (hue_shift_range h) as [_ Hr].
  destruct (Z.gtb_spec (Z.shiftr (h mod (6 * 256)) 8) 5); [lia | reflexivity].
Qed.

Lemma sextant_value (h : Z) : sextant h = (h mod 1536) / 256.
Proof.
  unfold sextant. rewrite sextant_clamped_false.
  destruct (hue_shift_range h) as [Hv Hr].
  rewrite uint8_small by (unfold is_byte; lia). exact Hv.
Qed.

Lemma sextant_range (h : Z) : 0 <= sextant h <= 5.
Proof.
  rewrite sextant_value. destruct (hue_shift_range h) as [Hv Hr]. lia.
Qed.

Lemma sextant_periodic (h : Z) : sextant (h + 1536) = sextant h.
Proof.
  rewrite !sextant_value. f_equal.
  replace (h + 1536) with (h + 1 * 1536) by lia. apply Z_mod_plus_full.
Qed.

Lemma h_fraction_periodic (h : Z) : Z.land (h + 1536) 0xff = Z.land h 0xff.
Proof.
  rewrite !land_255. unfold uint8. change (2 ^ 8) with 256.
  replace (h + 1536) with (h + 6 * 256) by lia. apply Z_mod_plus_full.
Qed.

(** Every path through [setHSV] is one call of [setRGB] at [pos]. *)
Lemma setHSV_is_setRGB (LEN pos h s v : Z) (data : list rgb_t) :
  exists t, setHSV LEN pos h s v data = setRGB LEN pos t data.
Proof.
  unfold setHSV, setRGB3.
  destruct (v =? 0); [eexists; reflexivity |].
  destruct (s =? 0); [eexists; reflexivity |].
  cbv zeta. pose proof (sextant_range h) as Hr.
  assert (Hc : sextant h = 0 \/ sextant h = 1 \/ sextant h = 2 \/
               sextant h = 3 \/ sextant h = 4 \/ sextant h = 5) by lia.
  destruct Hc as [E | [E | [E | [E | [E | E]]]]]; rewrite E;
    eexists; reflexivity.
Qed.

(** C10. The clamp of the sextant to 5 is never taken: for every hue,
    [(h mod 1536) >> 8] is at most 5, the condition of the conditional is
    false, and the sextant is [(h mod 1536) / 256], a value in [0, 5]. *)
Theorem sextant_clamp_unreachable (h : Z) :
  Z.shiftr (h mod (6 * 256)) 8 <= 5
  /\ sextant_clamped h = false
  /\ sextant h = (h mod 1536) / 256
  /\ 0 <= sextant h <= 5.
Proof.
  destruct (hue_shift_range h) as [_ Hr].
  split; [lia |].
  split; [apply sextant_clamped_false |].
  split; [apply sextant_value | apply sextant_range].
Qed.

(** C5. The conversion is periodic in the hue with period 1536: for every
    [unsigned] hue [h] whose sum [h + 1536] does not wrap the 16-bit type
    and every saturation and value, [setHSV] with hue [h + 1536] writes what
    [setHSV] with hue [h] writes. *)
Theorem setHSV_periodic (LEN pos h s v : Z) (data : list rgb_t) :
  is_unsigned h ->
  h + 1536 < 65536 ->
  is_byte s ->
  is_byte v ->
  setHSV LEN pos (uint16 (h + 1536)) s v data = setHSV LEN pos h s v data.
Proof.
  unfold is_unsigned. intros Hh Hwrap _ _.
  replace (uint16 (h + 1536)) with (h + 1536)
    by (unfold uint16; symmetry; apply Z.mod_small; lia).
  unfold setHSV. now rewrite sextant_periodic, h_fraction_periodic.
Qed.

Lemma setHSV_periodic_witness :
  setHSV 3 1 (uint16 (700 + 1536)) 200 100 [mk_rgb 0 0 0; mk_rgb 1 1 1; mk_rgb 2 2 2]
  = setHSV 3 1 700 200 100 [mk_rgb 0 0 0; mk_rgb 1 1 1; mk_rgb 2 2 2].
Proof.
  apply (setHSV_periodic 3 1 700 200 100 [mk_rgb 0 0 0; mk_rgb 1 1 1; mk_rgb 2 2 2]);
    unfold is_unsigned, is_byte; lia.
Defined.

(** Where the sum wraps, the period is lost: 65535 + 1536 is 1535 in 16 bits,
    in sextant 5, while 65535 itself is in sextant 3. *)
Example setHSV_wrapped_hue :
  setHSV 1 0 (uint16 (65535 + 1536)) 255 255 [mk_rgb 0 0 0] = [mk_rgb 255 0 0]
  /\ setHSV 1 0 65535 255 255 [mk_rgb 0 0 0] = [mk_rgb 0 0 255].
Proof. split; reflexivity. Qed.

(** The triplets written at three hues of full saturation and value. *)
Lemma setHSV_hue_0 (LEN pos : Z) (data : list rgb_t) :
  setHSV LEN pos 0 255 255 data = setRGB LEN pos (mk_rgb 255 0 0) data.
Proof. reflexivity. Qed.

Lemma setHSV_hue_255 (LEN pos : Z) (data : list rgb_t) :
  setHSV LEN pos 255 255 255 data = setRGB LEN pos (mk_rgb 255 254 0) data.
Proof. reflexivity. Qed.

Lemma setHSV_hue_256 (LEN pos : Z) (data : list rgb_t) :
  setHSV LEN pos 256 255 255 data = setRGB LEN pos (mk_rgb 255 255 0) data.
Proof. reflexivity. Qed.

Lemma setRGB_read (LEN pos : Z) (t : rgb_t) (data : list rgb_t) :
  0 <= pos < LEN ->
  length data = Z.to_nat LEN ->
  setRGB LEN pos t data !! Z.to_nat pos = Some t.
Proof.
  intros Hpos Hlen. unfold setRGB.
  destruct (Z.ltb_spec pos LEN) as [_ | Hge]; [| lia].
  apply list_lookup_insert_eq. lia.
Qed.

(** C6. [setHSV] with hue 0, saturation 255 and value 255 writes into an
    in-range slot a triplet within one unit per channel of (255, 0, 0); it
    is (255, 0, 0) itself. *)
Theorem setHSV_pure_red (LEN pos : Z) (data : list rgb_t) :
  0 <= pos < LEN ->
  length data = Z.to_nat LEN ->
  exists t,
    setHSV LEN pos 0 255 255 data !! Z.to_nat pos = Some t
    /\ within_1 t (mk_rgb 255 0 0)
    /\ t = mk_rgb 255 0 0.
Proof.
  intros Hpos Hlen. exists (mk_rgb 255 0 0).
  rewrite setHSV_hue_0, setRGB_read by assumption.
  split; [reflexivity | split; [| reflexivity]].
  unfold within_1. cbn [r g b]. lia.
Qed.

Lemma setHSV_pure_red_witness :
  exists t,
    setHSV 3 1 0 255 255 [mk_rgb 7 7 7; mk_rgb 8 8 8; mk_rgb 9 9 9] !! Z.to_nat 1
      = Some t
    /\ within_1 t (mk_rgb 255 0 0)
    /\ t = mk_rgb 255 0 0.
Proof.
  apply (setHSV_pure_red 3 1 [mk_rgb 7 7 7; mk_rgb 8 8 8; mk_rgb 9 9 9]);
    [lia | reflexivity].
Defined.

(** C7, as stated, fails: at hue 256 with full saturation and value the
    triplet written is (255, 255, 0), whose red channel is 255 away from the
    red channel of (0, 255, 0). *)
Lemma setHSV_hue_256_not_green :
  setHSV 1 0 256 255 255 [mk_rgb 0 0 0] = [mk_rgb 255 255 0]
  /\ ~ (exists t, setHSV 1 0 256 255 255 [mk_rgb 0 0 0] !! 0%nat = Some t
                  /\ within_1 t (mk_rgb 0 255 0)).
Proof.
  split; [reflexivity |].
  intros (t & Hread & Hr & _). rewrite setHSV_hue_256 in Hread.
  cbn in Hread. injection Hread as <-. cbn [r] in Hr. lia.
Qed.

(** C7, amended. At hue 256, the first step of sextant 1, [setHSV] with full
    saturation and value writes (255, 255, 0); at hue 255, the last step of
    sextant 0, it writes (255, 254, 0); the two triplets differ by at most
    one unit in every channel. *)
Theorem setHSV_sextant_boundary (LEN pos : Z) (data : list rgb_t) :
  0 <= pos < LEN ->
  length data = Z.to_nat LEN ->
  exists t255 t256,
    setHSV LEN pos 255 255 255 data !! Z.to_nat pos = Some t255
    /\ setHSV LEN pos 256 255 255 data !! Z.to_nat pos = Some t256
    /\ t255 = mk_rgb 255 254 0
    /\ t256 = mk_rgb 255 255 0
    /\ within_1 t255 t256.
Proof.
  intros Hpos Hlen. exists (mk_rgb 255 254 0), (mk_rgb 255 255 0).
  rewrite setHSV_hue_255, setHSV_hue_256, !setRGB_read by assumption.
  repeat (split; [reflexivity |]).
  unfold within_1. cbn [r g b]. lia.
Qed.

Lemma setHSV_sextant_boundary_witness :
  exists t255 t256,
    setHSV 1 0 255 255 255 [mk_rgb 0 0 0] !! Z.to_nat 0 = Some t255
    /\ setHSV 1 0 256 255 255 [mk_rgb 0 0 0] !! Z.to_nat 0 = Some t256
    /\ t255 = mk_rgb 255 254 0
    /\ t256 = mk_rgb 255 255 0
    /\ within_1 t255 t256.
Proof.
  apply (setHSV_sextant_boundary 1 0 [mk_rgb 0 0 0]); [lia | reflexivity].
Defined.

(** C8. For every [byte] position and every h, s, v, one call of [setHSV] is
    one call of [setRGB] at that position: the buffer keeps its length,
    every slot other than [pos] keeps its contents, and for [pos] at or
    beyond [LEN] nothing changes at all. *)
Theorem setHSV_frame (LEN pos h s v : Z) (data : list rgb_t) :
  is_byte pos ->
  (exists t, setHSV LEN pos h s v data = setRGB LEN pos t data)
  /\ length (setHSV LEN pos h s v data) = length data
  /\ (forall i : nat, i <> Z.to_nat pos ->
        setHSV LEN pos h s v data !! i = data !! i)
  /\ (~ (0 <= pos < LEN) -> setHSV LEN pos h s v data = data).
Proof.
  unfold is_byte. intros Hbyte.
  destruct (setHSV_is_setRGB LEN pos h s v data) as (t & ->).
  split; [now exists t |]. unfold setRGB.
  destruct (Z.ltb_spec pos LEN) as [Hlt | Hge].
  - split; [apply length_insert | split].
    + intros i Hi. apply list_lookup_insert_ne. congruence.
    + intros Hout. lia.
  - repeat split; reflexivity.
Qed.

Lemma setHSV_frame_witness :
  let data := [mk_rgb 7 7 7; mk_rgb 8 8 8; mk_rgb 9 9 9] in
  (exists t, setHSV 3 1 700 200 100 data = setRGB 3 1 t data)
  /\ length (setHSV 3 1 700 200 100 data) = length data
  /\ (forall i : nat, i <> Z.to_nat 1 ->
        setHSV 3 1 700 200 100 data !! i = data !! i)
  /\ (~ (0 <= 1 < 3) -> setHSV 3 1 700 200 100 data = data).
Proof.
  apply (setHSV_frame 3 1 700 200 100 [mk_rgb 7 7 7; mk_rgb 8 8 8; mk_rgb 9 9 9]).
  unfold is_byte. lia.
Defined.

(** * Further properties of the driver *)

(** ** Pin configuration *)

Lemma testbit_byte_high (x i : Z) : is_byte x -> 8 <= i -> Z.testbit x i = false.
Proof.
  unfold is_byte. intros Hx Hi.
  rewrite <- (Z.mod_small x (2 ^ 8)) by (change (2 ^ 8) with 256; lia).
  apply Z.mod_pow2_bits_high. lia.
Qed.

Lemma testbit_uint8 (x i : Z) :
  Z.testbit (uint8 x) i = (i <? 8) && Z.testbit x i.
Proof. unfold uint8. apply Z.testbit_mod_pow2. lia. Qed.

(** X1. [setup] makes pin [PIN] an output and nothing else: bit [PIN] of
    DDRB is set, every other bit of DDRB is as before, PORTB and the
    interrupt flag are untouched, nothing is sent on the line, and calling
    it again changes nothing. *)
Theorem setup_sets_output_pin (PIN : Z) (s : regs) :
  0 <= PIN < 8 ->
  is_byte (DDRB s) ->
  Z.testbit (DDRB (after (setup PIN) s)) PIN = true
  /\ (forall i, i <> PIN ->
        Z.testbit (DDRB (after (setup PIN) s)) i = Z.testbit (DDRB s) i)
  /\ PORTB (after (setup PIN) s) = PORTB s
  /\ SREG_I (after (setup PIN) s) = SREG_I s
  /\ wire (setup PIN) s = []
  /\ after (setup PIN) (after (setup PIN) s) = after (setup PIN) s.
Proof.
  intros HPIN Hbyte.
  assert (Hbit : forall i,
             Z.testbit (uint8 (Z.lor (DDRB s) (_BV PIN))) i =
             (i <? 8) && (Z.testbit (DDRB s) i || (PIN =? i))).
  { intros i. rewrite testbit_uint8, Z.lor_spec. unfold _BV.
    rewrite Z.shiftl_1_l.
    destruct (Z.ltb_spec i 8) as [Hlt | Hge]; [| reflexivity].
    destruct (Z.ltb_spec i 0) as [Hneg | Hpos].
    - rewrite !Z.testbit_neg_r by lia.
      destruct (Z.eqb_spec PIN i); [lia | reflexivity].
    - now rewrite Z.pow2_bits_eqb by lia. }
  unfold after, wire, setup, bind, read_DDRB, write_DDRB. cbn.
  split; [| split; [| repeat split]].
  - rewrite Hbit, Z.eqb_refl, orb_true_r.
    destruct (Z.ltb_spec PIN 8); [reflexivity | lia].
  - intros i Hi. rewrite Hbit.
    destruct (Z.eqb_spec PIN i) as [-> | _]; [congruence |].
    rewrite orb_false_r.
    destruct (Z.ltb_spec i 8) as [Hlt | Hge]; [reflexivity |].
    symmetry. now apply testbit_byte_high.
  - f_equal. apply Z.bits_inj'. intros i Hi.
    rewrite testbit_uint8, Z.lor_spec, Hbit.
    unfold _BV. rewrite Z.shiftl_1_l, Z.pow2_bits_eqb by lia.
    destruct (i <? 8), (Z.testbit (DDRB s) i), (PIN =? i); reflexivity.
Qed.

Lemma setup_sets_output_pin_witness :
  let s := mk_regs 0 0x28 false in
  Z.testbit (DDRB (after (setup 1) s)) 1 = true
  /\ (forall i, i <> 1 ->
        Z.testbit (DDRB (after (setup 1) s)) i = Z.testbit (DDRB s) i)
  /\ PORTB (after (setup 1) s) = PORTB s
  /\ SREG_I (after (setup 1) s) = SREG_I s
  /\ wire (setup 1) s = []
  /\ after (setup 1) (after (setup 1) s) = after (setup 1) s.
Proof.
  apply (setup_sets_output_pin 1 (mk_regs 0 0x28 false));
    [lia | unfold is_byte; cbn; lia].
Defined.

(** ** Writes to the pixel buffer *)

(** X2. Whatever the position, [setRGB] keeps the length of the buffer and
    the contents of every slot other than [pos]. *)
Theorem setRGB_frame (LEN pos : Z) (rgb : rgb_t) (data : list rgb_t) :
  is_byte pos ->
  length (setRGB LEN pos rgb data) = length data
  /\ (forall i : nat, i <> Z.to_nat pos ->
        setRGB LEN pos rgb data !! i = data !! i).
Proof.
  intros _. unfold setRGB. destruct (pos <? LEN).
  - split; [apply length_insert |].
    intros i Hi. apply list_lookup_insert_ne. congruence.
  - split; reflexivity.
Qed.

Lemma setRGB_frame_witness :
  let data := [mk_rgb 7 7 7; mk_rgb 8 8 8; mk_rgb 9 9 9] in
  length (setRGB 3 1 (mk_rgb 1 2 3) data) = length data
  /\ (forall i : nat, i <> Z.to_nat 1 ->
        setRGB 3 1 (mk_rgb 1 2 3) data !! i = data !! i).
Proof.
  apply (setRGB_frame 3 1 (mk_rgb 1 2 3) [mk_rgb 7 7 7; mk_rgb 8 8 8; mk_rgb 9 9 9]).
  unfold is_byte. lia.
Defined.

(** X3. The last write to a position wins: a second [setRGB] at the same
    position makes the first one unobservable. *)
Theorem setRGB_overwrite (LEN pos : Z) (first second : rgb_t) (data : list rgb_t) :
  setRGB LEN pos second (setRGB LEN pos first data) = setRGB LEN pos second data.
Proof.
  unfold setRGB. destruct (pos <? LEN); [| reflexivity].
  apply list_insert_insert_eq.
Qed.

(** X4. Writes to two different positions can be done in either order. *)
Theorem setRGB_commute (LEN pos1 pos2 : Z) (rgb1 rgb2 : rgb_t) (data : list rgb_t) :
  is_byte pos1 ->
  is_byte pos2 ->
  pos1 <> pos2 ->
  setRGB LEN pos1 rgb1 (setRGB LEN pos2 rgb2 data)
  = setRGB LEN pos2 rgb2 (setRGB LEN pos1 rgb1 data).
Proof.
  unfold is_byte. intros H1 H2 Hne. unfold setRGB.
  destruct (pos1 <? LEN), (pos2 <? LEN); try reflexivity.
  apply list_insert_insert_ne. lia.
Qed.

Lemma setRGB_commute_witness :
  let data := [mk_rgb 7 7 7; mk_rgb 8 8 8; mk_rgb 9 9 9] in
  setRGB 3 0 (mk_rgb 1 2 3) (setRGB 3 2 (mk_rgb 4 5 6) data)
  = setRGB 3 2 (mk_rgb 4 5 6) (setRGB 3 0 (mk_rgb 1 2 3) data).
Proof.
  apply (setRGB_commute 3 0 2 (mk_rgb 1 2 3) (mk_rgb 4 5 6)
           [mk_rgb 7 7 7; mk_rgb 8 8 8; mk_rgb 9 9 9]);
    unfold is_byte; lia.
Defined.

(** ** The colour conversion as a function of hue, saturation and value *)

Lemma setHSV_triplet (LEN pos h s v : Z) (data : list rgb_t) :
  setHSV LEN pos h s v data = setRGB LEN pos (hsv_triplet h s v) data.
Proof.
  unfold setHSV, hsv_triplet, setRGB3.
  destruct (v =? 0); [reflexivity |].
  destruct (s =? 0); [reflexivity |].
  cbv zeta. unfold hsv_floor, hsv_slope.
  pose proof (sextant_range h) as Hr.
  assert (Hc : sextant h = 0 \/ sextant h = 1 \/ sextant h = 2 \/
               sextant h = 3 \/ sextant h = 4 \/ sextant h = 5) by lia.
  destruct Hc as [E | [E | [E | [E | [E | E]]]]]; rewrite E; reflexivity.
Qed.

Lemma setHSV_read (LEN pos h s v : Z) (data : list rgb_t) :
  0 <= pos < LEN ->
  length data = Z.to_nat LEN ->
  setHSV LEN pos h s v data !! Z.to_nat pos = Some (hsv_triplet h s v).
Proof. intros Hpos Hlen. rewrite setHSV_triplet. now apply setRGB_read. Qed.

Lemma all_bytes_complete (x : Z) : is_byte x -> In x all_bytes.
Proof.
  unfold is_byte, all_bytes. intros Hx.
  rewrite <- (Z2Nat.id x) by lia. apply in_map, in_seq. lia.
Qed.

Lemma byte_table_sound (P : Z -> Z -> bool) (s v : Z) :
  byte_table P = true -> is_byte s -> is_byte v -> P s v = true.
Proof.
  unfold byte_table. intros Htab Hs Hv.
  rewrite forallb_forall in Htab.
  specialize (Htab s (all_bytes_complete s Hs)).
  rewrite forallb_forall in Htab.
  exact (Htab v (all_bytes_complete v Hv)).
Qed.

(** Linear arithmetic with division and remainder by constants. *)
Ltac div_lia := Z.div_mod_to_equations; lia.

(** None of the fixed-width conversions in the floor channel wraps. *)
Lemma hsv_floor_closed (s v : Z) :
  is_byte s -> is_byte v ->
  hsv_floor s v = (v * (255 - s) + 1 + (v * (255 - s) + 1) / 256) / 256.
Proof.
  unfold is_byte, hsv_floor, uint16, uint8. intros Hs Hv. cbv zeta.
  assert (Hw : 0 <= v * (255 - s) <= 65025) by nia.
  generalize dependent (v * (255 - s)). intros w Hw.
  rewrite !Z.shiftr_div_pow2 by lia.
  change (2 ^ 8) with 256. change (2 ^ 16) with 65536.
  div_lia.
Qed.

Lemma hsv_floor_range (s v : Z) :
  is_byte s -> is_byte v -> 0 <= hsv_floor s v <= v.
Proof.
  intros Hs Hv. rewrite hsv_floor_closed by assumption.
  unfold is_byte in *.
  assert (Hw : 0 <= v * (255 - s) <= 255 * v) by nia.
  generalize dependent (v * (255 - s)). intros w Hw. div_lia.
Qed.

(** Nor does any conversion in the slope channel. *)
Lemma hsv_slope_closed (s v k : Z) :
  is_byte s -> is_byte v -> 0 <= k <= 256 ->
  hsv_slope s v k =
    (v * (65280 - s * k) + v * (65280 - s * k) / 256 + v) / 65536.
Proof.
  unfold is_byte, hsv_slope, uint32, uint16, uint8. intros Hs Hv Hk. cbv zeta.
  assert (Hx : 0 <= s * k <= 65280) by nia.
  change (Z.shiftl 255 8) with 65280.
  rewrite !Z.shiftr_div_pow2 by lia.
  change (2 ^ 8) with 256. change (2 ^ 16) with 65536.
  change (2 ^ 32) with 4294967296.
  rewrite (Z.mod_small (s * k)) by lia.
  rewrite (Z.mod_small (65280 - s * k)) by lia.
  assert (Hd : 0 <= v * (65280 - s * k) <= 65280 * v) by nia.
  generalize dependent (v * (65280 - s * k)). intros d Hd. div_lia.
Qed.

Lemma hsv_slope_upper (s v k : Z) :
  is_byte s -> is_byte v -> 0 <= k <= 256 -> 0 <= hsv_slope s v k <= v.
Proof.
  intros Hs Hv Hk. rewrite hsv_slope_closed by assumption.
  unfold is_byte in *.
  assert (Hx : 0 <= s * k <= 65280) by nia.
  assert (Hd : 0 <= v * (65280 - s * k) <= 65280 * v) by nia.
  generalize dependent (v * (65280 - s * k)). intros d Hd. div_lia.
Qed.

(** The slope channel falls as the subtracted term grows, by at most one
    unit per step of [k]. *)
Lemma hsv_slope_antitone (s v k1 k2 : Z) :
  is_byte s -> is_byte v -> 0 <= k1 <= k2 -> k2 <= 256 ->
  hsv_slope s v k2 <= hsv_slope s v k1.
Proof.
  intros Hs Hv Hk1 Hk2. rewrite !hsv_slope_closed by (assumption || lia).
  unfold is_byte in *.
  assert (Hx : s * k1 <= s * k2) by (apply Z.mul_le_mono_nonneg_l; lia).
  assert (Hd : v * (65280 - s * k2) <= v * (65280 - s * k1))
    by (apply Z.mul_le_mono_nonneg_l; lia).
  generalize dependent (v * (65280 - s * k2)). intros d2.
  generalize (v * (65280 - s * k1)). intros d1 Hd. div_lia.
Qed.

Lemma hsv_slope_step (s v k : Z) :
  is_byte s -> is_byte v -> 0 <= k < 256 ->
  hsv_slope s v (k + 1) <= hsv_slope s v k <= hsv_slope s v (k + 1) + 1.
Proof.
  intros Hs Hv Hk. split; [apply hsv_slope_antitone; assumption || lia |].
  rewrite !hsv_slope_closed by (assumption || lia).
  unfold is_byte in *.
  assert (Hvs : 0 <= v * s <= 65025) by nia.
  assert (Hd : v * (65280 - s * k) <= v * (65280 - s * (k + 1)) + 65025)
    by (replace (v * (65280 - s * k))
          with (v * (65280 - s * (k + 1)) + v * s) by ring; lia).
  generalize dependent (v * (65280 - s * (k + 1))). intros d2.
  generalize (v * (65280 - s * k)). intros d1 Hd. div_lia.
Qed.

Lemma hsv_slope_0 (s v : Z) : is_byte s -> is_byte v -> hsv_slope s v 0 = v.
Proof.
  intros Hs Hv. rewrite hsv_slope_closed by (assumption || lia).
  unfold is_byte in *. rewrite Z.mul_0_r, Z.sub_0_r. div_lia.
Qed.

(** The two-parameter facts, checked on all 65536 pairs: the slope channel
    at its lowest ([k = 256]) is the floor channel or one above it, and at
    [k = 255] it is within one unit of the floor channel. *)
Lemma hsv_slope_floor_table :
  byte_table (fun s v =>
    (hsv_floor s v <=? hsv_slope s v 256)
    && (hsv_slope s v 256 <=? hsv_floor s v + 1)
    && (hsv_slope s v 255 <=? hsv_floor s v + 1)) = true.
Proof. vm_cast_no_check (eq_refl true). Qed.

Lemma hsv_slope_floor (s v : Z) :
  is_byte s -> is_byte v ->
  hsv_floor s v <= hsv_slope s v 256 <= hsv_floor s v + 1
  /\ hsv_floor s v <= hsv_slope s v 255 <= hsv_floor s v + 1.
Proof.
  intros Hs Hv.
  pose proof (byte_table_sound _ s v hsv_slope_floor_table Hs Hv) as Htab.
  cbv beta in Htab.
  apply andb_true_iff in Htab as [Htab H3].
  apply andb_true_iff in Htab as [H1 H2].
  apply Z.leb_le in H1, H2, H3.
  pose proof (hsv_slope_antitone s v 255 256 Hs Hv ltac:(lia) ltac:(lia)).
  lia.
Qed.

Lemma hsv_slope_lower (s v k : Z) :
  is_byte s -> is_byte v -> 0 <= k <= 256 -> hsv_floor s v <= hsv_slope s v k.
Proof.
  intros Hs Hv Hk.
  pose proof (hsv_slope_antitone s v k 256 Hs Hv ltac:(lia) ltac:(lia)).
  pose proof (hsv_slope_floor s v Hs Hv). lia.
Qed.

Lemma h_fraction_mod (h : Z) : uint8 (Z.land h 0xff) = h mod 256.
Proof. rewrite land_255, uint8_idem. reflexivity. Qed.

(** The six rows of the table of [setHSV]. *)
Lemma hsv_triplet_chromatic (h s v : Z) :
  v <> 0 -> s <> 0 ->
  let c := hsv_floor s v in
  let up := hsv_slope s v (256 - h mod 256) in
  let down := hsv_slope s v (h mod 256) in
  (sextant h = 0 /\ hsv_triplet h s v = mk_rgb v up c)
  \/ (sextant h = 1 /\ hsv_triplet h s v = mk_rgb down v c)
  \/ (sextant h = 2 /\ hsv_triplet h s v = mk_rgb c v up)
  \/ (sextant h = 3 /\ hsv_triplet h s v = mk_rgb c down v)
  \/ (sextant h = 4 /\ hsv_triplet h s v = mk_rgb up c v)
  \/ (sextant h = 5 /\ hsv_triplet h s v = mk_rgb v c down).
Proof.
  intros Hv Hs c up down. subst c up down. unfold hsv_triplet.
  destruct (Z.eqb_spec v 0) as [| _]; [contradiction |].
  destruct (Z.eqb_spec s 0) as [| _]; [contradiction |].
  cbv zeta. rewrite h_fraction_mod.
  pose proof (sextant_range h) as Hr.
  assert (Hc : sextant h = 0 \/ sextant h = 1 \/ sextant h = 2 \/
               sextant h = 3 \/ sextant h = 4 \/ sextant h = 5) by lia.
  destruct Hc as [E | [E | [E | [E | [E | E]]]]]; rewrite E; tauto.
Qed.

Lemma hsv_triplet_achromatic (h s v : Z) :
  v = 0 \/ s = 0 -> hsv_triplet h s v = mk_rgb v v v.
Proof.
  intros Hdeg. unfold hsv_triplet.
  destruct (Z.eqb_spec v 0) as [-> | Hv]; [reflexivity |].
  destruct (Z.eqb_spec s 0) as [_ | Hs]; [reflexivity | lia].
Qed.

(** X5. With zero value or zero saturation [setHSV] writes the gray
    (v, v, v), black when [v] is 0, whatever the hue. *)
Theorem setHSV_achromatic (LEN pos h s v : Z) (data : list rgb_t) :
  v = 0 \/ s = 0 ->
  setHSV LEN pos h s v data = setRGB LEN pos (mk_rgb v v v) data.
Proof.
  intros Hdeg. now rewrite setHSV_triplet, hsv_triplet_achromatic.
Qed.

Lemma setHSV_achromatic_witness :
  setHSV 3 1 700 0 90 [mk_rgb 7 7 7; mk_rgb 8 8 8; mk_rgb 9 9 9]
  = setRGB 3 1 (mk_rgb 90 90 90) [mk_rgb 7 7 7; mk_rgb 8 8 8; mk_rgb 9 9 9].
Proof.
  apply (setHSV_achromatic 3 1 700 0 90 [mk_rgb 7 7 7; mk_rgb 8 8 8; mk_rgb 9 9 9]).
  right. reflexivity.
Defined.

(** X6. A hue outside [0, 1535] is reduced modulo 1536, not clamped:
    [setHSV] with hue [h] does what it does with hue [h mod 1536]. *)
Theorem setHSV_hue_mod_1536 (LEN pos h s v : Z) (data : list rgb_t) :
  setHSV LEN pos (h mod 1536) s v data = setHSV LEN pos h s v data.
Proof.
  unfold setHSV.
  replace (sextant (h mod 1536)) with (sextant h)
    by (rewrite !sextant_value, Z.mod_mod by lia; reflexivity).
  replace (Z.land (h mod 1536) 0xff) with (Z.land h 0xff)
    by (rewrite !land_255; unfold uint8; change (2 ^ 8) with 256; div_lia).
  reflexivity.
Qed.

(** X7. For every hue and all byte saturations and values, the triplet
    [setHSV] writes has byte channels, its largest channel is exactly [v],
    and its smallest channel is the floor
    [(w + 1 + (w + 1) / 256) / 256] with [w = v * (255 - s)], the same for
    every hue. *)
Theorem setHSV_extremes (LEN pos h s v : Z) (data : list rgb_t) :
  0 <= pos < LEN ->
  length data = Z.to_nat LEN ->
  is_byte s ->
  is_byte v ->
  exists t,
    setHSV LEN pos h s v data !! Z.to_nat pos = Some t
    /\ byte_pixel t
    /\ Z.max (r t) (Z.max (g t) (b t)) = v
    /\ Z.min (r t) (Z.min (g t) (b t)) =
         (v * (255 - s) + 1 + (v * (255 - s) + 1) / 256) / 256.
Proof.
  intros Hpos Hlen Hs Hv. exists (hsv_triplet h s v).
  split; [now apply setHSV_read |].
  rewrite <- hsv_floor_closed by assumption.
  pose proof (hsv_floor_range s v Hs Hv) as Hc.
  destruct (Z.eq_dec v 0) as [Hv0 | Hv0];
    [| destruct (Z.eq_dec s 0) as [Hs0 | Hs0]].
  - rewrite hsv_triplet_achromatic by tauto. subst v.
    unfold byte_pixel, is_byte. cbn [r g b]. lia.
  - rewrite hsv_triplet_achromatic by tauto.
    assert (Hfloor : hsv_floor s v = v).
    { rewrite hsv_floor_closed by assumption. subst s.
      unfold is_byte in Hv. rewrite Z.sub_0_r. div_lia. }
    unfold byte_pixel, is_byte in *. cbn [r g b]. lia.
  - pose proof (Z.mod_pos_bound h 256 ltac:(lia)) as Hf.
    pose proof (hsv_slope_upper s v (256 - h mod 256) Hs Hv ltac:(lia)) as Hup.
    pose proof (hsv_slope_lower s v (256 - h mod 256) Hs Hv ltac:(lia)) as Hup'.
    pose proof (hsv_slope_upper s v (h mod 256) Hs Hv ltac:(lia)) as Hdn.
    pose proof (hsv_slope_lower s v (h mod 256) Hs Hv ltac:(lia)) as Hdn'.
    unfold byte_pixel, is_byte in *.
    destruct (hsv_triplet_chromatic h s v Hv0 Hs0)
      as [[_ ->] | [[_ ->] | [[_ ->] | [[_ ->] | [[_ ->] | [_ ->]]]]]];
      cbn [r g b]; lia.
Qed.

Lemma setHSV_extremes_witness :
  exists t,
    setHSV 3 1 700 200 100 [mk_rgb 7 7 7; mk_rgb 8 8 8; mk_rgb 9 9 9] !! Z.to_nat 1
      = Some t
    /\ byte_pixel t
    /\ Z.max (r t) (Z.max (g t) (b t)) = 100
    /\ Z.min (r t) (Z.min (g t) (b t)) =
         (100 * (255 - 200) + 1 + (100 * (255 - 200) + 1) / 256) / 256.
Proof.
  apply (setHSV_extremes 3 1 700 200 100 [mk_rgb 7 7 7; mk_rgb 8 8 8; mk_rgb 9 9 9]);
    [lia | reflexivity | unfold is_byte; lia | unfold is_byte; lia].
Defined.

(** Across one step of the hue, the slope channels either stay in their
    sextant and move by at most one unit, or sit at the ends of their
    range. *)
Lemma hsv_hue_step (h s v : Z) :
  is_byte s -> is_byte v ->
  let c := hsv_floor s v in
  let up := hsv_slope s v (256 - h mod 256) in
  let down := hsv_slope s v (h mod 256) in
  let up' := hsv_slope s v (256 - (h + 1) mod 256) in
  let down' := hsv_slope s v ((h + 1) mod 256) in
  (sextant (h + 1) = sextant h
   /\ up <= up' <= up + 1 /\ down' <= down <= down' + 1)
  \/ ((sextant (h + 1) = sextant h + 1 \/ (sextant h = 5 /\ sextant (h + 1) = 0))
      /\ v - 1 <= up <= v /\ down' = v
      /\ c <= down <= c + 1 /\ c <= up' <= c + 1).
Proof.
  intros Hs Hv c up down up' down'. subst c up down up' down'.
  rewrite !sextant_value.
  destruct (Z.eq_dec (h mod 256) 255) as [Hend | Hin].
  - right.
    replace ((h + 1) mod 256) with 0 by div_lia.
    replace (256 - h mod 256) with (0 + 1) by lia.
    rewrite Hend. change (256 - 0) with 256.
    pose proof (hsv_slope_step s v 0 Hs Hv ltac:(lia)) as Hstep.
    pose proof (hsv_slope_floor s v Hs Hv) as Hfloor.
    rewrite hsv_slope_0 in * by assumption.
    split; [div_lia | lia].
  - left.
    pose proof (Z.mod_pos_bound h 256 ltac:(lia)) as Hf.
    replace ((h + 1) mod 256) with (h mod 256 + 1) by div_lia.
    pose proof (hsv_slope_step s v (h mod 256) Hs Hv ltac:(lia)) as Hdown.
    pose proof (hsv_slope_step s v (256 - (h mod 256 + 1)) Hs Hv ltac:(lia)) as Hup.
    replace (256 - (h mod 256 + 1) + 1) with (256 - h mod 256) in Hup by lia.
    split; [div_lia | lia].
Qed.

(** X8. The conversion has no jump anywhere on the hue wheel: for all byte
    saturations and values, the triplets written for two consecutive hues
    [h] and [h + 1] differ by at most one unit in every channel, also
    across the six sextant boundaries and from 1535 to 1536. *)
Theorem setHSV_hue_continuous (LEN pos h s v : Z) (data : list rgb_t) :
  0 <= pos < LEN ->
  length data = Z.to_nat LEN ->
  is_byte s ->
  is_byte v ->
  is_unsigned h ->
  h + 1 < 65536 ->
  exists t t',
    setHSV LEN pos h s v data !! Z.to_nat pos = Some t
    /\ setHSV LEN pos (h + 1) s v data !! Z.to_nat pos = Some t'
    /\ within_1 t t'.
Proof.
  intros Hpos Hlen Hs Hv _ _.
  exists (hsv_triplet h s v), (hsv_triplet (h + 1) s v).
  split; [now apply setHSV_read | split; [now apply setHSV_read |]].
  destruct (Z.eq_dec v 0) as [Hv0 | Hv0];
    [| destruct (Z.eq_dec s 0) as [Hs0 | Hs0]].
  - rewrite !hsv_triplet_achromatic by tauto.
    unfold within_1. cbn [r g b]. lia.
  - rewrite !hsv_triplet_achromatic by tauto.
    unfold within_1. cbn [r g b]. lia.
  - pose proof (hsv_hue_step h s v Hs Hv) as Hstep. cbv zeta in Hstep.
    pose proof (hsv_triplet_chromatic h s v Hv0 Hs0) as Hrow.
    pose proof (hsv_triplet_chromatic (h + 1) s v Hv0 Hs0) as Hrow'.
    cbv zeta in Hrow, Hrow'.
    unfold within_1.
    destruct Hrow as [[E ->] | [[E ->] | [[E ->] | [[E ->] | [[E ->] | [E ->]]]]]];
      destruct Hrow' as [[E' ->] | [[E' ->] | [[E' ->] | [[E' ->] | [[E' ->] | [E' ->]]]]]];
      cbn [r g b]; lia.
Qed.

Lemma setHSV_hue_continuous_witness :
  exists t t',
    setHSV 1 0 1535 200 100 [mk_rgb 0 0 0] !! Z.to_nat 0 = Some t
    /\ setHSV 1 0 (1535 + 1) 200 100 [mk_rgb 0 0 0] !! Z.to_nat 0 = Some t'
    /\ within_1 t t'.
Proof.
  apply (setHSV_hue_continuous 1 0 1535 200 100 [mk_rgb 0 0 0]);
    unfold is_byte, is_unsigned; first [lia | reflexivity].
Defined.

(** X9. Inside a sextant the colour moves one way only: for two hues
    [h1 <= h2] of the same 256-step segment, no channel decreases from
    [h1] to [h2] when the sextant is even, and none increases when it is
    odd. *)
Theorem setHSV_monotone_in_sextant (LEN pos h1 h2 s v : Z) (data : list rgb_t) :
  0 <= pos < LEN ->
  length data = Z.to_nat LEN ->
  is_byte s ->
  is_byte v ->
  0 <= h1 <= h2 ->
  h1 / 256 = h2 / 256 ->
  exists t1 t2,
    setHSV LEN pos h1 s v data !! Z.to_nat pos = Some t1
    /\ setHSV LEN pos h2 s v data !! Z.to_nat pos = Some t2
    /\ (if Z.even (sextant h1)
        then r t1 <= r t2 /\ g t1 <= g t2 /\ b t1 <= b t2
        else r t2 <= r t1 /\ g t2 <= g t1 /\ b t2 <= b t1).
Proof.
  intros Hpos Hlen Hs Hv Hh Hseg.
  exists (hsv_triplet h1 s v), (hsv_triplet h2 s v).
  split; [now apply setHSV_read | split; [now apply setHSV_read |]].
  destruct (Z.eq_dec v 0) as [Hv0 | Hv0];
    [| destruct (Z.eq_dec s 0) as [Hs0 | Hs0]].
  - rewrite !hsv_triplet_achromatic by tauto. cbn [r g b].
    destruct (Z.even (sextant h1)); lia.
  - rewrite !hsv_triplet_achromatic by tauto. cbn [r g b].
    destruct (Z.even (sextant h1)); lia.
  - assert (Hsx : sextant h2 = sextant h1) by (rewrite !sextant_value; div_lia).
    assert (Hf : 0 <= h1 mod 256 <= h2 mod 256 /\ h2 mod 256 < 256) by div_lia.
    pose proof (hsv_slope_antitone s v (h1 mod 256) (h2 mod 256) Hs Hv
                  ltac:(lia) ltac:(lia)) as Hdown.
    pose proof (hsv_slope_antitone s v (256 - h2 mod 256) (256 - h1 mod 256) Hs Hv
                  ltac:(lia) ltac:(lia)) as Hup.
    pose proof (hsv_triplet_chromatic h1 s v Hv0 Hs0) as Hrow1.
    pose proof (hsv_triplet_chromatic h2 s v Hv0 Hs0) as Hrow2.
    cbv zeta in Hrow1, Hrow2. rewrite Hsx in Hrow2.
    destruct Hrow1 as [[E ->] | [[E ->] | [[E ->] | [[E ->] | [[E ->] | [E ->]]]]]];
      destruct Hrow2 as [[E' ->] | [[E' ->] | [[E' ->] | [[E' ->] | [[E' ->] | [E' ->]]]]]];
      try lia; rewrite E; cbn [Z.even r g b]; lia.
Qed.

Lemma setHSV_monotone_in_sextant_witness :
  exists t1 t2,
    setHSV 1 0 300 200 100 [mk_rgb 0 0 0] !! Z.to_nat 0 = Some t1
    /\ setHSV 1 0 400 200 100 [mk_rgb 0 0 0] !! Z.to_nat 0 = Some t2
    /\ (if Z.even (sextant 300)
        then r t1 <= r t2 /\ g t1 <= g t2 /\ b t1 <= b t2
        else r t2 <= r t1 /\ g t2 <= g t1 /\ b t2 <= b t1).
Proof.
  apply (setHSV_monotone_in_sextant 1 0 300 400 200 100 [mk_rgb 0 0 0]);
    unfold is_byte; first [lia | reflexivity].
Defined.

(** ** The transmission as a whole *)

Lemma for_each_ret (idx : list nat) (s : regs) :
  for_each idx (fun _ => ret tt) s = (tt, s, []).
Proof.
  induction idx as [| i idx IH]; [reflexivity |].
  cbn [for_each]. unfold bind. cbn [ret]. now rewrite IH.
Qed.

(** A body that, from a low port, leaves the port low and interrupts
    enabled. *)
Lemma for_each_send (body : nat -> M unit) (W : nat -> list event) idx s :
  (forall i s', PORTB s' = 0 ->
     body i s' = (tt, mk_regs 0 (DDRB s') true, W i)) ->
  PORTB s = 0 ->
  for_each idx body s =
    (tt, match idx with [] => s | _ :: _ => mk_regs 0 (DDRB s) true end,
     flat_map W idx).
Proof.
  intros Hbody. revert s. induction idx as [| i idx IH]; intros s H0.
  - reflexivity.
  - cbn [for_each flat_map].
    eapply eq_trans.
    { eapply bind_run; [now apply Hbody | now apply IH]. }
    destruct idx; reflexivity.
Qed.

Lemma flat_map_nil {A B : Type} (l : list A) :
  flat_map (fun _ => @nil B) l = [].
Proof. induction l as [| x l IH]; [reflexivity | exact IH]. Qed.

(** The loop of [flush] from a low port, for any list of indices. *)
Lemma flush_loop_exact (PIN ORDER : Z) (data : list rgb_t) idx s :
  0 <= PIN ->
  PORTB s = 0 ->
  for_each idx (fun i =>
      if ORDER =? RGB then sendRGB PIN (data !!! i)
      else if ORDER =? GRB then sendGRB PIN (data !!! i)
      else ret tt) s =
    (tt,
     match idx with
     | [] => s
     | _ :: _ =>
         if (ORDER =? RGB) || (ORDER =? GRB) then mk_regs 0 (DDRB s) true else s
     end,
     flat_map (fun i => pixel_events PIN ORDER (data !!! i)) idx).
Proof.
  intros HPIN H0. unfold pixel_events.
  destruct (ORDER =? RGB); [| destruct (ORDER =? GRB)]; cbn [orb].
  - apply for_each_send; [| assumption].
    intros i s' H0'. now apply sendRGB_run.
  - apply for_each_send; [| assumption].
    intros i s' H0'. now apply sendGRB_run.
  - rewrite for_each_ret, flat_map_nil. now destruct idx.
Qed.

(** [flush] from any register state, with the registers it leaves. *)
Lemma flush_exact (PIN LEN ORDER : Z) (data : list rgb_t) (s : regs) :
  0 <= PIN ->
  flush PIN LEN ORDER data s =
    (tt,
     mk_regs 0 (DDRB s)
       (if (0 <? LEN) && ((ORDER =? RGB) || (ORDER =? GRB)) then true
        else SREG_I s),
     reset_events ++
     flat_map (pixel_events PIN ORDER)
              (map (fun i => data !!! i) (seq 0 (Z.to_nat LEN)))).
Proof.
  intros HPIN. unfold flush.
  rewrite flat_map_concat_map, map_map, <- flat_map_concat_map.
  eapply eq_trans.
  { eapply bind_run; [reflexivity |]. cbv beta.
    eapply bind_run; [reflexivity |]. cbv beta.
    now apply flush_loop_exact. }
  cbn [PORTB DDRB SREG_I].
  destruct (Z.ltb_spec 0 LEN) as [Hpos | Hneg].
  - destruct (Z.to_nat LEN) as [| n] eqn:E; [lia |].
    cbn [seq andb]. destruct ((ORDER =? RGB) || (ORDER =? GRB)); reflexivity.
  - replace (Z.to_nat LEN) with 0%nat by lia. reflexivity.
Qed.

(** X10. [flush] returns with PORTB at 0 and DDRB as it found it.  If it
    sent at least one pixel (a non-empty strip and an order that is RGB or
    GRB) interrupts are enabled on return, whether or not they were on
    entry: the [sei()] after each byte does not restore the previous state.
    Otherwise the interrupt flag is as before. *)
Theorem flush_final_registers (PIN LEN ORDER : Z) (data : list rgb_t) (s : regs) :
  0 <= PIN < 8 ->
  after (flush PIN LEN ORDER data) s =
    mk_regs 0 (DDRB s)
      (if (0 <? LEN) && ((ORDER =? RGB) || (ORDER =? GRB)) then true
       else SREG_I s).
Proof.
  intros HPIN. unfold after. rewrite flush_exact by lia. reflexivity.
Qed.

Lemma flush_final_registers_witness :
  after (flush 1 2 GRB [mk_rgb 1 2 3; mk_rgb 4 5 6]) (mk_regs 0xF0 0x02 false)
  = mk_regs 0 (DDRB (mk_regs 0xF0 0x02 false))
      (if (0 <? 2) && ((GRB =? RGB) || (GRB =? GRB)) then true
       else SREG_I (mk_regs 0xF0 0x02 false)).
Proof.
  apply (flush_final_registers 1 2 GRB [mk_rgb 1 2 3; mk_rgb 4 5 6]
           (mk_regs 0xF0 0x02 false)).
  lia.
Defined.

(** X11. With an empty strip, or with an [ORDER] that is neither RGB nor
    GRB, [flush] sends the reset and nothing else: no pixel goes out, and
    only PORTB changes. *)
Theorem flush_nothing_to_send (PIN LEN ORDER : Z) (data : list rgb_t) (s : regs) :
  LEN <= 0 \/ (ORDER <> RGB /\ ORDER <> GRB) ->
  flush PIN LEN ORDER data s =
    (tt, mk_regs 0 (DDRB s) (SREG_I s), reset_events).
Proof.
  intros Hnone. unfold flush.
  assert (Hloop : forall s',
             for_each (seq 0 (Z.to_nat LEN)) (fun i =>
               if ORDER =? RGB then sendRGB PIN (data !!! i)
               else if ORDER =? GRB then sendGRB PIN (data !!! i)
               else ret tt) s' = (tt, s', [])).
  { intros s'. destruct Hnone as [Hlen | [Hrgb Hgrb]].
    - replace (Z.to_nat LEN) with 0%nat by lia. reflexivity.
    - destruct (Z.eqb_spec ORDER RGB) as [| _]; [contradiction |].
      destruct (Z.eqb_spec ORDER GRB) as [| _]; [contradiction |].
      apply for_each_ret. }
  eapply eq_trans.
  { eapply bind_run; [reflexivity |]. cbv beta.
    eapply bind_run; [reflexivity |]. cbv beta. apply Hloop. }
  reflexivity.
Qed.

Lemma flush_nothing_to_send_witness :
  flush 1 3 2 [mk_rgb 1 2 3; mk_rgb 4 5 6; mk_rgb 7 8 9] (mk_regs 0xF0 0x02 false)
  = (tt, mk_regs 0 (DDRB (mk_regs 0xF0 0x02 false))
           (SREG_I (mk_regs 0xF0 0x02 false)), reset_events).
Proof.
  apply (flush_nothing_to_send 1 3 2 [mk_rgb 1 2 3; mk_rgb 4 5 6; mk_rgb 7 8 9]
           (mk_regs 0xF0 0x02 false)).
  right. unfold RGB, GRB. lia.
Defined.

(** X12. The signal of [flush] is a function of the buffer alone: it does
    not depend on the registers it starts from, so two calls in a row on an
    unmodified buffer send the same signal twice. *)
Theorem flush_repeatable (PIN LEN ORDER : Z) (data : list rgb_t) (s : regs) :
  0 <= PIN < 8 ->
  (forall s', wire (flush PIN LEN ORDER data) s' = wire (flush PIN LEN ORDER data) s)
  /\ wire (flush PIN LEN ORDER data ;; flush PIN LEN ORDER data) s =
       wire (flush PIN LEN ORDER data) s ++ wire (flush PIN LEN ORDER data) s.
Proof.
  intros HPIN. split.
  - intros s'. unfold wire. now rewrite !flush_exact by lia.
  - unfold wire, bind. now rewrite !flush_exact by lia.
Qed.

Lemma flush_repeatable_witness :
  let data := [mk_rgb 1 2 3; mk_rgb 4 5 6] in
  let s := mk_regs 0xF0 0x02 false in
  (forall s', wire (flush 1 2 RGB data) s' = wire (flush 1 2 RGB data) s)
  /\ wire (flush 1 2 RGB data ;; flush 1 2 RGB data) s =
       wire (flush 1 2 RGB data) s ++ wire (flush 1 2 RGB data) s.
Proof.
  apply (flush_repeatable 1 2 RGB [mk_rgb 1 2 3; mk_rgb 4 5 6]
           (mk_regs 0xF0 0x02 false)).
  lia.
Defined.

(** ** The shape of the signal *)

Section SignalShape.

Variable PIN : Z.

(** A burst in front of more signal: [Cli], eight pulses, [Sei]. *)
Lemma burst_app (x : Z) (rest : list event) :
  burst PIN x ++ rest =
    Cli :: fold_right (fun p acc => pulse_events PIN p ++ acc) (Sei :: rest)
                      (byte_pulses x).
Proof.
  unfold burst, byte_pulses, bits_msb. cbn [map flat_map fold_right].
  rewrite <- !app_assoc. reflexivity.
Qed.

Lemma pixel_events_bursts (ORDER : Z) (ps : list rgb_t) :
  ORDER = RGB \/ ORDER = GRB ->
  flat_map (pixel_events PIN ORDER) ps = flat_map (burst PIN) (wire_bytes ORDER ps).
Proof.
  intros Hord. unfold wire_bytes, pixel_events.
  induction ps as [| p ps IH]; [reflexivity |].
  cbn [flat_map]. rewrite IH.
  destruct Hord as [-> | ->].
  - change (RGB =? RGB) with true. cbn [app flat_map].
    rewrite <- !app_assoc. reflexivity.
  - change (GRB =? RGB) with false. change (GRB =? GRB) with true.
    cbn [app flat_map]. rewrite <- !app_assoc. reflexivity.
Qed.

Lemma length_wire_bytes (ORDER : Z) (ps : list rgb_t) :
  length (wire_bytes ORDER ps) = (3 * length ps)%nat.
Proof.
  unfold wire_bytes. induction ps as [| p ps IH]; [reflexivity |].
  cbn [flat_map]. rewrite length_app, IH.
  destruct (ORDER =? RGB); cbn [length]; lia.
Qed.

(** Cycles and events of the pulses of a byte. *)
Lemma pulses_nop_cycles (ps : list pulse) (tail : list event) :
  nop_cycles (fold_right (fun p acc => pulse_events PIN p ++ acc) tail ps)
  = (7 * length ps + nop_cycles tail)%nat.
Proof.
  induction ps as [| p ps IH]; [reflexivity |].
  cbn [fold_right length]. destruct p; cbn [pulse_events app nop_cycles];
    rewrite IH; lia.
Qed.

Lemma pulses_length (ps : list pulse) (tail : list event) :
  length (fold_right (fun p acc => pulse_events PIN p ++ acc) tail ps)
  = (5 * length ps + length tail)%nat.
Proof.
  induction ps as [| p ps IH]; [reflexivity |].
  cbn [fold_right]. rewrite length_app, IH.
  destruct p; cbn [pulse_events length]; lia.
Qed.

Lemma pulses_waits_in_critical (ps : list pulse) (tail : list event) :
  waits_in_critical true
    (fold_right (fun p acc => pulse_events PIN p ++ acc) tail ps)
  = waits_in_critical true tail.
Proof.
  induction ps as [| p ps IH]; [reflexivity |].
  cbn [fold_right]. destruct p; cbn [pulse_events app waits_in_critical andb];
    exact IH.
Qed.

Lemma pulses_critical_sections (ps : list pulse) (tail : list event) (k : nat) :
  critical_sections (Some k)
    (fold_right (fun p acc => pulse_events PIN p ++ acc) tail ps)
  = critical_sections (Some (k + 7 * length ps)%nat) tail.
Proof.
  revert k. induction ps as [| p ps IH]; intros k.
  - cbn [fold_right length]. do 2 f_equal. lia.
  - cbn [fold_right length].
    destruct p; cbn [pulse_events app critical_sections];
      rewrite IH; do 2 f_equal; lia.
Qed.

(** The same for whole bursts and for a frame of bytes. *)
Lemma bursts_nop_cycles (bytes : list Z) :
  nop_cycles (flat_map (burst PIN) bytes) = (56 * length bytes)%nat.
Proof.
  induction bytes as [| x bytes IH]; [reflexivity |].
  cbn [flat_map length]. rewrite burst_app. cbn [nop_cycles].
  rewrite pulses_nop_cycles. cbn [nop_cycles]. rewrite IH.
  change (length (byte_pulses x)) with 8%nat. lia.
Qed.

Lemma bursts_length (bytes : list Z) :
  length (flat_map (burst PIN) bytes) = (42 * length bytes)%nat.
Proof.
  induction bytes as [| x bytes IH]; [reflexivity |].
  cbn [flat_map]. rewrite burst_app. cbn [length].
  rewrite pulses_length. cbn [length]. rewrite IH.
  change (length (byte_pulses x)) with 8%nat. lia.
Qed.

Lemma bursts_waits_in_critical (bytes : list Z) (off : bool) :
  waits_in_critical off (flat_map (burst PIN) bytes) = true.
Proof.
  revert off. induction bytes as [| x bytes IH]; intros off; [reflexivity |].
  cbn [flat_map]. rewrite burst_app. cbn [waits_in_critical].
  rewrite pulses_waits_in_critical. cbn [waits_in_critical]. apply IH.
Qed.

Lemma bursts_critical_sections (bytes : list Z) (cur : option nat) :
  critical_sections cur (flat_map (burst PIN) bytes)
  = replicate (length bytes) 56%nat.
Proof.
  revert cur. induction bytes as [| x bytes IH]; intros cur; [reflexivity |].
  cbn [flat_map length replicate]. rewrite burst_app. cbn [critical_sections].
  rewrite pulses_critical_sections. cbn [critical_sections]. rewrite IH.
  reflexivity.
Qed.

End SignalShape.

(** X13. The duration of a transmission depends on [LEN] alone, not on the
    colours: under RGB or GRB order the signal has 2 + 126 * LEN events and
    waits 168 * LEN [nop] cycles in all, 7 for each of the 24 bits of a
    pixel whatever their values. *)
Theorem flush_duration (PIN LEN ORDER : Z) (data : list rgb_t) (s : regs) :
  0 <= PIN < 8 ->
  ORDER = RGB \/ ORDER = GRB ->
  nop_cycles (wire (flush PIN LEN ORDER data) s) = (168 * Z.to_nat LEN)%nat
  /\ length (wire (flush PIN LEN ORDER data) s) = (2 + 126 * Z.to_nat LEN)%nat.
Proof.
  intros HPIN Hord. unfold wire. rewrite flush_exact by lia. cbn [snd].
  rewrite pixel_events_bursts by assumption.
  cbn [reset_events app nop_cycles length].
  rewrite bursts_nop_cycles, bursts_length, length_wire_bytes,
    length_map, length_seq.
  lia.
Qed.

Lemma flush_duration_witness :
  let data := [mk_rgb 1 2 3; mk_rgb 0xFF 0 0x80] in
  let s := mk_regs 0xF0 0x02 false in
  nop_cycles (wire (flush 1 2 GRB data) s) = (168 * Z.to_nat 2)%nat
  /\ length (wire (flush 1 2 GRB data) s) = (2 + 126 * Z.to_nat 2)%nat.
Proof.
  apply (flush_duration 1 2 GRB [mk_rgb 1 2 3; mk_rgb 0xFF 0 0x80]
           (mk_regs 0xF0 0x02 false)); [lia | right; reflexivity].
Defined.

(** X14. Interrupts are off exactly while a byte is on the line: every
    cycle-counted wait of [flush] lies between a [cli()] and the next
    [sei()], and the signal consists of 3 * LEN critical sections of 56
    [nop] cycles (eight bits) each, interrupts being enabled again between
    any two bytes. *)
Theorem flush_critical_sections (PIN LEN ORDER : Z) (data : list rgb_t) (s : regs) :
  0 <= PIN < 8 ->
  ORDER = RGB \/ ORDER = GRB ->
  waits_in_critical false (wire (flush PIN LEN ORDER data) s) = true
  /\ critical_sections None (wire (flush PIN LEN ORDER data) s)
     = replicate (3 * Z.to_nat LEN) 56%nat.
Proof.
  intros HPIN Hord. unfold wire. rewrite flush_exact by lia. cbn [snd].
  rewrite pixel_events_bursts by assumption.
  cbn [reset_events app waits_in_critical critical_sections].
  rewrite bursts_waits_in_critical, bursts_critical_sections,
    length_wire_bytes, length_map, length_seq.
  split; reflexivity.
Qed.

Lemma flush_critical_sections_witness :
  let data := [mk_rgb 1 2 3; mk_rgb 0xFF 0 0x80] in
  let s := mk_regs 0xF0 0x02 false in
  waits_in_critical false (wire (flush 1 2 RGB data) s) = true
  /\ critical_sections None (wire (flush 1 2 RGB data) s)
     = replicate (3 * Z.to_nat 2) 56%nat.
Proof.
  apply (flush_critical_sections 1 2 RGB [mk_rgb 1 2 3; mk_rgb 0xFF 0 0x80]
           (mk_regs 0xF0 0x02 false)); [lia | left; reflexivity].
Defined.

(** ** What the receivers read *)

Lemma bits_value_msb_table :
  forallb (fun x => bits_value (bits_msb x) =? x) all_bytes = true.
Proof. vm_compute. reflexivity. Qed.

(** The eight bits sent for a byte spell that byte. *)
Lemma bits_value_msb (x : Z) : is_byte x -> bits_value (bits_msb x) = x.
Proof.
  intros Hx. pose proof bits_value_msb_table as Htab.
  rewrite forallb_forall in Htab.
  apply Z.eqb_eq, Htab, all_bytes_complete, Hx.
Qed.

Lemma bits_pixels_step (x y z : Z) (rest : list bool) (n : nat) :
  bits_pixels (S n) (bits_msb x ++ bits_msb y ++ bits_msb z ++ rest)
  = mk_rgb (bits_value (bits_msb x)) (bits_value (bits_msb y))
           (bits_value (bits_msb z))
    :: bits_pixels n rest.
Proof. reflexivity. Qed.

Lemma swap_rg_involutive (p : rgb_t) : swap_rg (swap_rg p) = p.
Proof. now destruct p. Qed.

Lemma bits_pixels_wire_bytes (ORDER : Z) (ps : list rgb_t) :
  Forall byte_pixel ps ->
  bits_pixels (length ps) (flat_map bits_msb (wire_bytes ORDER ps))
  = if ORDER =? RGB then ps else map swap_rg ps.
Proof.
  unfold wire_bytes. intros Hbytes.
  induction Hbytes as [| p ps (Hr & Hg & Hb) _ IH].
  - now destruct (ORDER =? RGB).
  - cbn [length flat_map]. rewrite flat_map_app.
    destruct (ORDER =? RGB); cbn [flat_map app map];
      rewrite app_nil_r, <- !app_assoc, bits_pixels_step, IH,
        !bits_value_msb by assumption;
      now destruct p.
Qed.

Section Receiver.

Variable PIN : Z.
Hypothesis PIN_port_bit : 0 <= PIN < 8.

(** On the line a pulse is high for its first wait, and for its second
    wait exactly when it is long; it leaves the line low. *)
Lemma pulse_waveform (bit : bool) (rest : list event) (lvl : bool) :
  waveform PIN lvl (pulse_events PIN (pulse_of_bit bit) ++ rest)
  = (true, 2%nat) :: (bit, 5%nat) :: waveform PIN false rest.
Proof.
  assert (Hhigh : Z.testbit (uint8 (_BV PIN)) PIN = true).
  { rewrite _BV_port_bit by lia. apply Z.pow2_bits_true. lia. }
  destruct bit; cbn [pulse_of_bit pulse_events app waveform];
    rewrite ?Hhigh, ?Z.bits_0; reflexivity.
Qed.

Lemma pulses_wave_bits (bits : list bool) (tail : list event) :
  wave_bits (waveform PIN false
               (fold_right (fun p acc => pulse_events PIN p ++ acc) tail
                           (map pulse_of_bit bits)))
  = bits ++ wave_bits (waveform PIN false tail).
Proof.
  induction bits as [| bit bits IH]; [reflexivity |].
  cbn [map fold_right]. rewrite pulse_waveform. cbn [wave_bits app].
  now rewrite IH.
Qed.

Lemma bursts_wave_bits (bytes : list Z) :
  wave_bits (waveform PIN false (flat_map (burst PIN) bytes))
  = flat_map bits_msb bytes.
Proof.
  induction bytes as [| x bytes IH]; [reflexivity |].
  cbn [flat_map]. rewrite burst_app. cbn [waveform].
  unfold byte_pulses. rewrite pulses_wave_bits. cbn [waveform].
  now rewrite IH.
Qed.

(** The receivers latch the buffer, byte for byte in wire order. *)
Lemma received_flush (LEN ORDER : Z) (data : list rgb_t) (s : regs) :
  ORDER = RGB \/ ORDER = GRB ->
  length data = Z.to_nat LEN ->
  Forall byte_pixel data ->
  received PIN (Z.to_nat LEN) (wire (flush PIN LEN ORDER data) s)
  = if ORDER =? RGB then data else map swap_rg data.
Proof.
  intros Hord Hlen Hbytes. unfold received, wire.
  rewrite flush_exact by lia. cbn [snd].
  rewrite <- Hlen, lookup_total_seq, pixel_events_bursts by assumption.
  cbn [reset_events app waveform]. rewrite Z.bits_0, bursts_wave_bits.
  now apply bits_pixels_wire_bytes.
Qed.

End Receiver.

(** X15. The strip gets what the buffer holds.  Reading the level of pin
    [PIN] during the second wait of each pulse, and assembling the bits
    most significant first into [LEN] pixels of three bytes, gives back the
    buffer exactly under RGB order, and the buffer with the first two
    bytes of each pixel exchanged (green first) under GRB order. *)
Theorem flush_received (PIN LEN ORDER : Z) (data : list rgb_t) (s : regs) :
  0 <= PIN < 8 ->
  ORDER = RGB \/ ORDER = GRB ->
  length data = Z.to_nat LEN ->
  Forall byte_pixel data ->
  received PIN (Z.to_nat LEN) (wire (flush PIN LEN ORDER data) s)
  = if ORDER =? RGB then data else map swap_rg data.
Proof. intros HPIN. now apply received_flush. Qed.

Lemma flush_received_witness :
  received 1 (Z.to_nat 2)
    (wire (flush 1 2 GRB [mk_rgb 1 2 3; mk_rgb 0xFF 0 0x80]) (mk_regs 0xF0 0x02 false))
  = if GRB =? RGB then [mk_rgb 1 2 3; mk_rgb 0xFF 0 0x80]
    else map swap_rg [mk_rgb 1 2 3; mk_rgb 0xFF 0 0x80].
Proof.
  apply (flush_received 1 2 GRB [mk_rgb 1 2 3; mk_rgb 0xFF 0 0x80]
           (mk_regs 0xF0 0x02 false));
    [lia | right; reflexivity | reflexivity |].
  repeat constructor; unfold is_byte; cbn; lia.
Defined.

(** X16. Different buffers give different signals: if two buffers of [LEN]
    byte triplets produce the same signal under the same order (RGB or
    GRB), from whatever register states, they are the same buffer. *)
Theorem flush_injective (PIN LEN ORDER : Z) (data data' : list rgb_t) (s s' : regs) :
  0 <= PIN < 8 ->
  ORDER = RGB \/ ORDER = GRB ->
  length data = Z.to_nat LEN ->
  length data' = Z.to_nat LEN ->
  Forall byte_pixel data ->
  Forall byte_pixel data' ->
  wire (flush PIN LEN ORDER data) s = wire (flush PIN LEN ORDER data') s' ->
  data = data'.
Proof.
  intros HPIN Hord Hlen Hlen' Hbytes Hbytes' Hwire.
  pose proof (received_flush PIN HPIN LEN ORDER data s Hord Hlen Hbytes) as Hrx.
  pose proof (received_flush PIN HPIN LEN ORDER data' s' Hord Hlen' Hbytes') as Hrx'.
  rewrite Hwire, Hrx' in Hrx.
  destruct (ORDER =? RGB); [congruence |].
  apply (f_equal (map swap_rg)) in Hrx.
  rewrite !map_map in Hrx.
  rewrite !(map_ext _ (fun p => p) swap_rg_involutive), !map_id in Hrx.
  congruence.
Qed.

Lemma flush_injective_witness :
  [mk_rgb 1 2 3; mk_rgb 0xFF 0 0x80] = [mk_rgb 1 2 3; mk_rgb 0xFF 0 0x80].
Proof.
  apply (flush_injective 1 2 RGB [mk_rgb 1 2 3; mk_rgb 0xFF 0 0x80]
           [mk_rgb 1 2 3; mk_rgb 0xFF 0 0x80]
           (mk_regs 0xF0 0x02 false) (mk_regs 0 0 true));
    [lia | left; reflexivity | reflexivity | reflexivity | | | reflexivity];
    repeat constructor; unfold is_byte; cbn; lia.
Defined.

(** ** A pin number beyond the port *)

Lemma _BV_beyond_port (bit : Z) : 8 <= bit -> uint8 (_BV bit) = 0.
Proof.
  intros Hbit. unfold uint8, _BV. rewrite Z.shiftl_1_l.
  replace bit with (bit - 8 + 8) by lia.
  rewrite Z.pow_add_r by lia. apply Z_mod_mult.
Qed.

Lemma burst_port_low (PIN x : Z) : 8 <= PIN -> Forall port_low (burst PIN x).
Proof.
  intros HPIN. unfold burst.
  apply Forall_app. split; [repeat constructor |].
  apply Forall_app. split; [| repeat constructor].
  apply Forall_flat_map, Forall_forall. intros p _.
  destruct p; cbn [pulse_events]; rewrite _BV_beyond_port by assumption;
    repeat constructor.
Qed.

(** X17. [PIN] is a [byte], but port B has eight bits.  With a pin number
    from 8 to 14 the mask [_BV(PIN)] has no bit in the low byte, so
    [PORTB |= _BV(PIN)] raises nothing: every value [flush] writes to PORTB
    is 0 and no line of the port ever goes high, whatever the buffer. *)
Theorem flush_silent_beyond_port (PIN LEN ORDER : Z) (data : list rgb_t)
    (s : regs) (v : Z) :
  8 <= PIN <= 14 ->
  In (Port v) (wire (flush PIN LEN ORDER data) s) ->
  v = 0.
Proof.
  intros HPIN Hin.
  assert (Hlow : Forall port_low (wire (flush PIN LEN ORDER data) s)).
  { unfold wire. rewrite flush_exact by lia. cbn [snd].
    apply Forall_app. split; [repeat constructor |].
    apply Forall_flat_map, Forall_forall. intros p _. unfold pixel_events.
    assert (Hburst : forall x, Forall port_low (burst PIN x))
      by (intros x; apply burst_port_low; lia).
    destruct (ORDER =? RGB); [| destruct (ORDER =? GRB)];
      [ | | constructor];
      (apply Forall_app; split; [apply Hburst |]);
      (apply Forall_app; split; apply Hburst). }
  rewrite Forall_forall in Hlow. apply list_elem_of_In in Hin.
  exact (Hlow (Port v) Hin).
Qed.

Lemma flush_silent_beyond_port_witness : 0 = 0.
Proof.
  apply (flush_silent_beyond_port 8 1 RGB [mk_rgb 0xFF 0xFF 0xFF]
           (mk_regs 0xAA 0 true) 0); [lia |].
  vm_compute. left. reflexivity.
Defined.
